(** * stdio-to-SSE proxy (src/proxy.js): a shallow embedding and its properties

    The proxy bridges newline-delimited JSON-RPC on stdin/stdout to an MCP
    server that speaks Server-Sent Events.  This development models

    - the JavaScript values the proxy handles (strings as sequences of
      UTF-16 code units, JSON values with IEEE-754 numbers);
    - [sendMessage], the [res.on('data')] handler of [connectSSEStream], its
      ['end'] and ['error'] handlers, and the [rl.on('line')] handler of
      [initialize], each as a function returning the effects it performs;
    - the event loop as a step function on a [world], one step per I/O event.

    The built-ins whose code is not part of the repository ([JSON.parse],
    [JSON.stringify], [URL], [Buffer.prototype.toString],
    [Buffer.byteLength]) are the fields of the class [Runtime]; general
    theorems hold for every runtime, and [Node] is a reference instance used
    to run the proxy on concrete inputs. *)

From Stdlib Require Import List Bool Arith NArith ZArith Lia String Ascii.
From Stdlib Require Import Floats.SpecFloat.
From Stdlib Require Strings.Byte.
From Stdlib Require Import Numbers.DecimalString.
Import ListNotations.

(** ** JavaScript strings *)

Module Js.

(** A JavaScript string is a sequence of UTF-16 code units. *)
Definition char16 := N.
Definition jsstring := list char16.

(** String literals of the source (all of them ASCII). *)
Definition lit (s : string) : jsstring :=
  map N_of_ascii (list_ascii_of_string s).

(** A literal that holds double quotes, written with ['] in their place. *)
Definition qlit (s : string) : jsstring :=
  map (fun c => if (c =? 39)%N then 34%N else c) (lit s).

(** [a === b] on strings. *)
Fixpoint streq (a b : jsstring) : bool :=
  match a, b with
  | [], [] => true
  | x :: a', y :: b' => N.eqb x y && streq a' b'
  | _, _ => false
  end.

(** [s.startsWith(p)] *)
Fixpoint startsWith (s p : jsstring) {struct p} : bool :=
  match p, s with
  | [], _ => true
  | y :: p', x :: s' => N.eqb x y && startsWith s' p'
  | _ :: _, [] => false
  end.

(** [s.slice(n)] for [n >= 0] *)
Definition slice (n : nat) (s : jsstring) : jsstring := skipn n s.

(** [s.substring(0, n)] *)
Definition substring0 (n : nat) (s : jsstring) : jsstring := firstn n s.

(** WhiteSpace and LineTerminator code units, the ones [trim] strips. *)
Definition is_space (c : char16) : bool :=
  ((9 <=? c) && (c <=? 13) || (c =? 32) || (c =? 160) || (c =? 5760)
   || (8192 <=? c) && (c <=? 8202) || (c =? 8232) || (c =? 8233)
   || (c =? 8239) || (c =? 8287) || (c =? 12288) || (c =? 65279))%N.

Fixpoint trimStart (s : jsstring) : jsstring :=
  match s with
  | c :: s' => if is_space c then trimStart s' else s
  | [] => []
  end.

Definition trimEnd (s : jsstring) : jsstring := rev (trimStart (rev s)).

(** [s.trim()] *)
Definition trim (s : jsstring) : jsstring := trimEnd (trimStart s).

(** [s.split(sep)] for a one-character separator: never empty, the last
    element is the text after the last separator. *)
Fixpoint split (sep : char16) (s : jsstring) : list jsstring :=
  match s with
  | [] => [[]]
  | c :: s' =>
      if (c =? sep)%N then [] :: split sep s'
      else match split sep s' with
           | l :: ls => (c :: l) :: ls
           | [] => [[c]]
           end
  end.

(** [s.split('\n')] *)
Definition split_lf (s : jsstring) : list jsstring := split 10%N s.

(** Decimal rendering of a non-negative integer, as in a template literal. *)
Definition dec (n : N) : jsstring :=
  lit (NilEmpty.string_of_uint (N.to_uint n)).

(** [null] or a string: the type of [sessionId] and [currentEvent]. *)
Definition nullable := option jsstring.

(** [!x] for [x] null or a string: null and the empty string are falsy. *)
Definition falsy (x : nullable) : bool :=
  match x with
  | None => true
  | Some [] => true
  | Some (_ :: _) => false
  end.

(** [x === s] for [x] null or a string and [s] a string. *)
Definition is_str (x : nullable) (s : jsstring) : bool :=
  match x with
  | Some e => streq e s
  | None => false
  end.

(** [`${x}`] for [x] null or a string. *)
Definition show (x : nullable) : jsstring :=
  match x with
  | Some s => s
  | None => lit "null"
  end.

(** A string or a number, where the source lets either through. *)
Inductive strnum :=
| Str (s : jsstring)
| Num (n : N).

Definition show_strnum (v : strnum) : jsstring :=
  match v with
  | Str s => s
  | Num n => dec n
  end.

(** ** JSON values *)

(** The values [JSON.parse] can return.  Numbers are IEEE-754 doubles; an
    object lists its own properties in property order, each key once. *)
#[warnings="-register-all"]
Inductive json :=
| JNull
| JBool (b : bool)
| JNum (x : spec_float)
| JStr (s : jsstring)
| JArr (items : list json)
| JObj (fields : list (jsstring * json)).

(** The double of an integer (round to nearest even). *)
Definition num (z : Z) : spec_float := binary_normalize 53 1024 z 0 false.

(** ToBoolean *)
Definition truthy (v : json) : bool :=
  match v with
  | JNull => false
  | JBool b => b
  | JNum (S754_zero _) => false
  | JNum S754_nan => false
  | JNum _ => true
  | JStr [] => false
  | JStr (_ :: _) => true
  | JArr _ => true
  | JObj _ => true
  end.

(** Normal completion or a thrown error (carrying its [message]). *)
Inductive completion (A : Type) :=
| Normal (a : A)
| Throw (message : jsstring).
Arguments Normal {A} a.
Arguments Throw {A} message.

Fixpoint assoc (k : jsstring) (fields : list (jsstring * json)) : option json :=
  match fields with
  | [] => None
  | (k', v) :: rest => if streq k' k then Some v else assoc k rest
  end.

(** [v.id]: [None] is [undefined]; reading a property of [null] throws a
    TypeError.  Primitives and arrays have no property of that name. *)
Definition get_id (v : json) : completion (option json) :=
  match v with
  | JNull => Throw (lit "Cannot read properties of null (reading 'id')")
  | JObj fields => Normal (assoc (lit "id") fields)
  | _ => Normal None
  end.

(** [x || null] *)
Definition or_null (x : option json) : json :=
  match x with
  | Some v => if truthy v then v else JNull
  | None => JNull
  end.

End Js.
Export Js.

(** ** Effects and the runtime *)

(** The [options] of [httpModule.request], with the module it is called on. *)
Record request := {
  req_https : bool;
  req_hostname : jsstring;
  req_port : strnum;
  req_path : jsstring;
  req_method : jsstring;
  req_headers : list (jsstring * strnum)
}.

(** What the proxy does to the outside, in program order.  Every
    [console.error] call of the source ends with the same object
    [{ stream: 'stderr' }]; [Stderr] lists the arguments before it. *)
Inductive effect :=
| Stdout (text : jsstring)
| Stderr (args : list jsstring)
| HttpRequest (options : request) (body : option jsstring)
| ConnectResolve
| ConnectReject (message : jsstring)
| DestroyRequest
| Exit (code : N).

(** The built-ins the proxy calls.  A [Throw] of [JSON_parse] is its
    SyntaxError; [URL_searchParams_get input base name] is
    [new URL(input, base).searchParams.get(name)], which throws a TypeError
    when the URL is invalid and returns [null] when the parameter is
    missing. *)
Class Runtime := {
  JSON_parse : jsstring -> completion json;
  JSON_stringify : json -> jsstring;
  URL_searchParams_get : jsstring -> jsstring -> jsstring -> completion nullable;
  Buffer_toString : list Byte.byte -> jsstring;
  Buffer_byteLength : jsstring -> N
}.

(** The fields of the parsed [SSE_URL] the proxy reads. *)
Record url := {
  protocol : jsstring;
  hostname : jsstring;
  port : jsstring;
  pathname : jsstring
}.

Definition LF : jsstring := [10%N].

(** The settled or pending promise a caller of [sendMessage] awaits. *)
Inductive awaited :=
| AlreadyRejected (message : jsstring)
| AwaitingResponse.

Inductive sse_status := SseConnecting | SseOpen | SseClosed.

(** [Connecting]: [initialize] awaits [connectSSEStream()]; [Active]: the
    readline interface is installed; [Exited]: the process is gone. *)
Inductive phase := Connecting | Active | Exited (code : N).

Inductive signal := SIGINT | SIGTERM.

(** An async ['line'] handler suspended at its [await]. *)
Record suspended := {
  s_id : nat;
  s_line : jsstring;
  s_await : awaited
}.

(** The module-level variables, the closure variables of the ['data']
    handler, the suspended handlers and the effects so far (oldest first). *)
Record world := {
  sessionId : nullable;
  sseConnection : bool;
  sse : sse_status;
  buffer : jsstring;
  currentEvent : nullable;
  lifecycle : phase;
  pending : list suspended;
  next_id : nat;
  trace : list effect
}.

(** One I/O event or resumed continuation of the event loop. *)
Inductive event :=
| SseResponse (statusCode : N)
| SseData (chunk : list Byte.byte)
| SseEnd
| SseError (message : jsstring)
| StdinLine (line : jsstring)
| Continue (id : nat)
| PostEnd (id : nat) (statusCode : N) (data : jsstring)
| PostError (id : nat) (message : jsstring)
| StdinClose
| Signal (s : signal).

Section Proxy.

Context {R : Runtime}.
Variable sseUrl : url.

Definition is_https : bool := streq (protocol sseUrl) (lit "https:").

(** [sseUrl.port || (sseUrl.protocol === 'https:' ? 443 : 80)] *)
Definition options_port : strnum :=
  match port sseUrl with
  | [] => Num (if is_https then 443 else 80)
  | _ :: _ => Str (port sseUrl)
  end.

(** *** sendMessage *)

(** The synchronous part: the body of the promise executor up to
    [req.end()]. *)
Definition sendMessage (sessionId : nullable) (message : json)
  : list effect * awaited :=
  if falsy sessionId then
    ([], AlreadyRejected (lit "No active session"))
  else
    let postData := JSON_stringify message in
    let options :=
      {| req_https := is_https;
         req_hostname := hostname sseUrl;
         req_port := options_port;
         req_path := pathname sseUrl ++ lit "?sessionId=" ++ show sessionId;
         req_method := lit "POST";
         req_headers :=
           [(lit "Content-Type", Str (lit "application/json"));
            (lit "Content-Length", Num (Buffer_byteLength postData))] |} in
    ([HttpRequest options (Some postData)], AwaitingResponse).

(** [res.on('end')] of the POST: how the promise settles. *)
Definition sendMessage_end (statusCode : N) (data : jsstring) : completion unit :=
  if ((200 <=? statusCode) && (statusCode <? 300))%N then Normal tt
  else Throw (lit "HTTP " ++ dec statusCode ++ lit ": " ++ data).

(** [req.on('error')] of the POST. *)
Definition sendMessage_error (message : jsstring) : completion unit :=
  Throw message.

(** *** connectSSEStream *)

Definition connect_options (clientSessionId : jsstring) : request :=
  {| req_https := is_https;
     req_hostname := hostname sseUrl;
     req_port := options_port;
     req_path := pathname sseUrl ++ lit "?sessionId=" ++ clientSessionId;
     req_method := lit "GET";
     req_headers :=
       [(lit "Accept", Str (lit "text/event-stream"));
        (lit "Cache-Control", Str (lit "no-cache"));
        (lit "Connection", Str (lit "keep-alive"))] |}.

(** [`http://${options.hostname}:${options.port}`] *)
Definition endpoint_base : jsstring :=
  lit "http://" ++ hostname sseUrl ++ lit ":" ++ show_strnum options_port.

(** The body of the [data: ] branch: what is done with the payload [data]
    under the pending event type.  The result is the new
    [(currentEvent, sessionId)], or the error thrown out of the handler. *)
Definition on_data_line (currentEvent sessionId : nullable) (data : jsstring)
  : list effect * completion (nullable * nullable) :=
  if is_str currentEvent (lit "endpoint") then
    match URL_searchParams_get data endpoint_base (lit "sessionId") with
    | Throw m => ([], Throw m)
    | Normal sessionId' =>
        ([Stderr [lit "Session established: " ++ show sessionId'];
          ConnectResolve],
         Normal (None, sessionId'))
    end
  else if is_str currentEvent (lit "message") || falsy currentEvent then
    if streq data (lit "[DONE]") then ([], Normal (None, sessionId))
    else
      match JSON_parse data with
      | Normal message =>
          ([Stdout (JSON_stringify message ++ LF)], Normal (None, sessionId))
      | Throw _ =>
          ([Stderr [lit "Failed to parse SSE message:"; substring0 50 data]],
           Normal (None, sessionId))
      end
  else ([], Normal (None, sessionId)).

(** One iteration of [for (const line of lines)]. *)
Definition on_sse_line (currentEvent sessionId : nullable) (line : jsstring)
  : list effect * completion (nullable * nullable) :=
  if startsWith line (lit "event: ") then
    ([], Normal (Some (trim (slice 7 line)), sessionId))
  else if startsWith line (lit "data: ") then
    on_data_line currentEvent sessionId (slice 6 line)
  else if streq line [] then
    ([], Normal (None, sessionId))
  else
    ([], Normal (currentEvent, sessionId)).

(** The loop; a thrown error leaves it at once. *)
Fixpoint for_lines (currentEvent sessionId : nullable) (lines : list jsstring)
  : list effect * completion (nullable * nullable) :=
  match lines with
  | [] => ([], Normal (currentEvent, sessionId))
  | line :: rest =>
      match on_sse_line currentEvent sessionId line with
      | (effs, Throw m) => (effs, Throw m)
      | (effs, Normal (currentEvent', sessionId')) =>
          let '(effs', c) := for_lines currentEvent' sessionId' rest in
          (effs ++ effs', c)
      end
  end.

(** [res.on('data')] on decoded text: the new [buffer] (that is
    [lines.pop() || '']), then the loop over the complete lines. *)
Definition on_text (buffer : jsstring) (currentEvent sessionId : nullable)
    (text : jsstring)
  : jsstring * (list effect * completion (nullable * nullable)) :=
  let lines := split_lf (buffer ++ text) in
  (last lines [], for_lines currentEvent sessionId (removelast lines)).

(** [res.on('data')] *)
Definition on_data (buffer : jsstring) (currentEvent sessionId : nullable)
    (chunk : list Byte.byte) :=
  on_text buffer currentEvent sessionId (Buffer_toString chunk).

(** *** The ['line'] handler of [initialize] *)

Definition errorResponse (id : json) (message : jsstring) : json :=
  JObj [(lit "jsonrpc", JStr (lit "2.0"));
        (lit "id", id);
        (lit "error", JObj [(lit "code", JNum (num (-32603)));
                            (lit "message", JStr message)])].

(** The [catch (error)] block, entered with [error.message]. *)
Definition catch_block (line error_message : jsstring) : list effect :=
  Stderr [lit "Error processing message:"; error_message] ::
  match JSON_parse line with
  | Throw _ => []
  | Normal parsedMessage =>
      match get_id parsedMessage with
      | Throw _ => []
      | Normal id =>
          [Stdout (JSON_stringify (errorResponse (or_null id) error_message)
                   ++ LF)]
      end
  end.

(** The handler up to its [await]: [None] when it returns without
    suspending. *)
Definition on_line (sessionId : nullable) (line : jsstring)
  : list effect * option awaited :=
  match trim line with
  | [] => ([], None)
  | _ :: _ =>
      match JSON_parse line with
      | Throw m => (catch_block line m, None)
      | Normal message =>
          let '(effs, p) := sendMessage sessionId message in
          (effs, Some p)
      end
  end.

(** The handler after its [await], once the promise has settled. *)
Definition on_line_resume (line : jsstring) (r : completion unit)
  : list effect :=
  match r with
  | Normal _ => []
  | Throw m => catch_block line m
  end.

End Proxy.

(** ** The event loop *)

Definition set_trace (w : world) (effs : list effect) : world :=
  {| sessionId := sessionId w; sseConnection := sseConnection w;
     sse := sse w; buffer := buffer w; currentEvent := currentEvent w;
     lifecycle := lifecycle w; pending := pending w; next_id := next_id w;
     trace := trace w ++ effs |}.

Definition set_lifecycle (w : world) (p : phase) : world :=
  {| sessionId := sessionId w; sseConnection := sseConnection w;
     sse := sse w; buffer := buffer w; currentEvent := currentEvent w;
     lifecycle := p; pending := pending w; next_id := next_id w;
     trace := trace w |}.

Definition set_pending (w : world) (l : list suspended) : world :=
  {| sessionId := sessionId w; sseConnection := sseConnection w;
     sse := sse w; buffer := buffer w; currentEvent := currentEvent w;
     lifecycle := lifecycle w; pending := l; next_id := next_id w;
     trace := trace w |}.

(** [process.exit(code)], and the end of the process on an uncaught
    exception (exit code 1). *)
Definition exit (w : world) (code : N) : world :=
  set_lifecycle (set_trace w [Exit code]) (Exited code).

(** [resolve()] of the connection promise: the first call lets
    [initialize] go on and install the readline interface. *)
Definition connect_resolved (w : world) : world :=
  match lifecycle w with
  | Connecting => set_lifecycle w Active
  | _ => w
  end.

(** [reject(error)] of the connection promise: while [initialize] awaits
    it, its [catch] logs and exits with code 1; later it does nothing. *)
Definition connect_rejected (w : world) (message : jsstring) : world :=
  match lifecycle w with
  | Connecting =>
      exit (set_trace w [ConnectReject message;
                         Stderr [lit "Failed to initialize:"; message]]) 1
  | _ => set_trace w [ConnectReject message]
  end.

Definition is_resolve (e : effect) : bool :=
  match e with
  | ConnectResolve => true
  | _ => false
  end.

(** [sseConnection = null; sessionId = null], as both the ['end'] and the
    ['error'] handler do, with the stream marked closed. *)
Definition invalidate (w : world) : world :=
  {| sessionId := None; sseConnection := false;
     sse := SseClosed; buffer := buffer w; currentEvent := currentEvent w;
     lifecycle := lifecycle w; pending := pending w; next_id := next_id w;
     trace := trace w |}.

Fixpoint find_pending (id : nat) (l : list suspended) : option suspended :=
  match l with
  | [] => None
  | s :: rest => if Nat.eqb (s_id s) id then Some s else find_pending id rest
  end.

Definition remove_pending (id : nat) (l : list suspended) : list suspended :=
  filter (fun s => negb (Nat.eqb (s_id s) id)) l.

Definition signal_name (s : signal) : jsstring :=
  match s with
  | SIGINT => lit "SIGINT"
  | SIGTERM => lit "SIGTERM"
  end.

(** The POSTs whose response has not arrived. *)
Definition in_flight (w : world) : list suspended :=
  filter (fun s => match s_await s with
                   | AwaitingResponse => true
                   | AlreadyRejected _ => false
                   end) (pending w).

Section EventLoop.

Context {R : Runtime}.
Variable sseUrl : url.

(** [connectSSEStream()] up to [sseRequest.end()]: the GET goes out with
    the random [clientSessionId]; the rest happens in the callbacks. *)
Definition connectSSEStream (clientSessionId : jsstring) : list effect :=
  [HttpRequest (connect_options sseUrl clientSessionId) None].

(** The world once the script has run to the end of its first turn:
    [initialize] has logged, called [connectSSEStream] and awaits it. *)
Definition initialize (SSE_URL clientSessionId : jsstring) : world :=
  {| sessionId := None; sseConnection := false; sse := SseConnecting;
     buffer := []; currentEvent := None; lifecycle := Connecting;
     pending := []; next_id := 0;
     trace := [Stderr [lit "Playwright MCP stdio-to-SSE proxy started"];
               Stderr [lit "Forwarding to: " ++ SSE_URL]]
              ++ connectSSEStream clientSessionId |}.

(** The callback of the GET request. *)
Definition on_sse_response (w : world) (statusCode : N) : world :=
  if (statusCode =? 200)%N then
    {| sessionId := sessionId w; sseConnection := true; sse := SseOpen;
       buffer := []; currentEvent := None; lifecycle := lifecycle w;
       pending := pending w; next_id := next_id w;
       trace := trace w ++ [Stderr [lit "Connected to SSE endpoint"]] |}
  else
    connect_rejected
      {| sessionId := sessionId w; sseConnection := sseConnection w;
         sse := SseClosed; buffer := buffer w;
         currentEvent := currentEvent w; lifecycle := lifecycle w;
         pending := pending w; next_id := next_id w; trace := trace w |}
      (lit "Failed to connect to SSE: HTTP " ++ dec statusCode).

(** A chunk arrives: the ['data'] handler runs; an error thrown out of it
    is uncaught and ends the process, whose variables are then of no
    account (they are left as they were before the chunk). *)
Definition on_sse_data (w : world) (chunk : list Byte.byte) : world :=
  match on_data sseUrl (buffer w) (currentEvent w) (sessionId w) chunk with
  | (buffer', (effs, Normal (currentEvent', sessionId'))) =>
      let w' :=
        {| sessionId := sessionId'; sseConnection := sseConnection w;
           sse := sse w; buffer := buffer'; currentEvent := currentEvent';
           lifecycle := lifecycle w; pending := pending w;
           next_id := next_id w; trace := trace w ++ effs |} in
      if existsb is_resolve effs then connect_resolved w' else w'
  | (buffer', (effs, Throw _)) =>
      exit {| sessionId := sessionId w; sseConnection := sseConnection w;
              sse := sse w; buffer := buffer'; currentEvent := currentEvent w;
              lifecycle := lifecycle w; pending := pending w;
              next_id := next_id w; trace := trace w ++ effs |} 1
  end.

(** [res.on('end')] *)
Definition on_sse_end (w : world) : world :=
  invalidate (set_trace w [Stderr [lit "SSE connection closed"]]).

(** [sseRequest.on('error')] *)
Definition on_sse_error (w : world) (message : jsstring) : world :=
  connect_rejected
    (invalidate (set_trace w [Stderr [lit "SSE connection error:"; message]]))
    message.

(** A line arrives on stdin: the handler runs up to its [await].  readline
    emits ['line'] for each line as it comes and does nothing with the
    promise an async listener returns, and the source never pauses the
    interface, so this event can occur while earlier handlers are still
    suspended. *)
Definition on_stdin_line (w : world) (line : jsstring) : world :=
  match on_line sseUrl (sessionId w) line with
  | (effs, None) => set_trace w effs
  | (effs, Some p) =>
      {| sessionId := sessionId w; sseConnection := sseConnection w;
         sse := sse w; buffer := buffer w; currentEvent := currentEvent w;
         lifecycle := lifecycle w;
         pending := pending w
                    ++ [{| s_id := next_id w; s_line := line; s_await := p |}];
         next_id := S (next_id w);
         trace := trace w ++ effs |}
  end.

(** A suspended handler goes on with the settled promise. *)
Definition resume (w : world) (s : suspended) (r : completion unit) : world :=
  set_trace (set_pending w (remove_pending (s_id s) (pending w)))
            (on_line_resume (s_line s) r).

Definition shutdown (w : world) (reason : jsstring) : world :=
  exit (set_trace w [Stderr [reason]; DestroyRequest]) 0.

(** One step of the event loop; [None] when the event cannot occur in this
    state (nothing happens after the process has exited, a response needs
    its request, readline exists only once the connection promise has
    resolved). *)
Definition step (w : world) (e : event) : option world :=
  match lifecycle w with
  | Exited _ => None
  | _ =>
      match e with
      | SseResponse statusCode =>
          match sse w with
          | SseConnecting => Some (on_sse_response w statusCode)
          | _ => None
          end
      | SseData chunk =>
          match sse w with
          | SseOpen => Some (on_sse_data w chunk)
          | _ => None
          end
      | SseEnd =>
          match sse w with
          | SseOpen => Some (on_sse_end w)
          | _ => None
          end
      | SseError message =>
          match sse w with
          | SseClosed => None
          | _ => Some (on_sse_error w message)
          end
      | StdinLine line =>
          match lifecycle w with
          | Active => Some (on_stdin_line w line)
          | _ => None
          end
      | Continue id =>
          match find_pending id (pending w) with
          | Some s =>
              match s_await s with
              | AlreadyRejected m => Some (resume w s (Throw m))
              | AwaitingResponse => None
              end
          | None => None
          end
      | PostEnd id statusCode data =>
          match find_pending id (pending w) with
          | Some s =>
              match s_await s with
              | AwaitingResponse =>
                  Some (resume w s (sendMessage_end statusCode data))
              | AlreadyRejected _ => None
              end
          | None => None
          end
      | PostError id message =>
          match find_pending id (pending w) with
          | Some s =>
              match s_await s with
              | AwaitingResponse =>
                  Some (resume w s (sendMessage_error message))
              | AlreadyRejected _ => None
              end
          | None => None
          end
      | StdinClose =>
          match lifecycle w with
          | Active => Some (shutdown w (lit "stdin closed, exiting"))
          | _ => None
          end
      | Signal s =>
          Some (shutdown w (lit "Received " ++ signal_name s
                            ++ lit ", exiting"))
      end
  end.

(** A run of the event loop. *)
Fixpoint run (w : world) (events : list event) : option world :=
  match events with
  | [] => Some w
  | e :: rest =>
      match step w e with
      | Some w' => run w' rest
      | None => None
      end
  end.

End EventLoop.

(** ** A reference runtime

    [Node] implements the built-ins of [Runtime] so that the proxy can be
    run on concrete inputs: UTF-8 decoding with U+FFFD replacement as
    [Buffer.prototype.toString] does it, the query lookup of
    [URL.searchParams], and [JSON.parse] / [JSON.stringify] on the JSON
    grammar.  Two things are left out: the text of the SyntaxError message
    of [JSON.parse] (a fixed text stands for it), and the TypeError of the
    [URL] constructor, which only an input carrying its own, invalid
    authority can raise. *)

Module Node.

Local Open Scope N_scope.

(** *** UTF-8 *)

(** Decoder state: continuation bytes still needed, the code point so far,
    and the bounds the next byte must lie in. *)
Record utf8_state := {
  needed : nat;
  acc : N;
  lower : N;
  upper : N
}.

Definition utf8_start : utf8_state :=
  {| needed := 0; acc := 0; lower := 128; upper := 191 |}.

Definition between (lo x hi : N) : bool := (lo <=? x) && (x <=? hi).

(** A byte read while no sequence is open. *)
Definition utf8_lead (b : N) : list N * utf8_state :=
  if b <=? 127 then ([b], utf8_start)
  else if between 194 b 223 then
    ([], {| needed := 1; acc := N.land b 31; lower := 128; upper := 191 |})
  else if between 224 b 239 then
    ([], {| needed := 2; acc := N.land b 15;
            lower := if b =? 224 then 160 else 128;
            upper := if b =? 237 then 159 else 191 |})
  else if between 240 b 244 then
    ([], {| needed := 3; acc := N.land b 7;
            lower := if b =? 240 then 144 else 128;
            upper := if b =? 244 then 143 else 191 |})
  else ([65533], utf8_start).

(** One byte: the code points it completes and the next state.  A byte
    that cannot continue the open sequence closes it with U+FFFD and is
    read again as a lead byte. *)
Definition utf8_byte (st : utf8_state) (b : N) : list N * utf8_state :=
  match needed st with
  | O => utf8_lead b
  | S n =>
      if between (lower st) b (upper st) then
        let cp := N.lor (N.shiftl (acc st) 6) (N.land b 63) in
        match n with
        | O => ([cp], utf8_start)
        | S _ => ([], {| needed := n; acc := cp; lower := 128; upper := 191 |})
        end
      else
        let '(out, st') := utf8_lead b in (65533 :: out, st')
  end.

Fixpoint utf8_code_points (st : utf8_state) (bytes : list N) : list N :=
  match bytes with
  | [] => match needed st with
          | O => []
          | S _ => [65533]
          end
  | b :: rest =>
      let '(out, st') := utf8_byte st b in
      out ++ utf8_code_points st' rest
  end.

(** A code point as UTF-16 code units. *)
Definition utf16 (cp : N) : jsstring :=
  if cp <? 65536 then [cp]
  else [55296 + (cp - 65536) / 1024; 56320 + (cp - 65536) mod 1024].

Definition utf8_decode (bytes : list N) : jsstring :=
  flat_map utf16 (utf8_code_points utf8_start bytes).

Definition replacement : list N := [239; 191; 189].

(** The UTF-8 encoding of a string; a lone surrogate becomes U+FFFD. *)
Fixpoint utf8_encode (s : jsstring) : list N :=
  match s with
  | [] => []
  | c :: rest =>
      if c <? 128 then c :: utf8_encode rest
      else if c <? 2048 then
        [192 + c / 64; 128 + c mod 64] ++ utf8_encode rest
      else if between 55296 c 56319 then
        match rest with
        | d :: rest' =>
            if between 56320 d 57343 then
              let cp := 65536 + (c - 55296) * 1024 + (d - 56320) in
              [240 + cp / 262144; 128 + (cp / 4096) mod 64;
               128 + (cp / 64) mod 64; 128 + cp mod 64]
              ++ utf8_encode rest'
            else replacement ++ utf8_encode rest
        | [] => replacement
        end
      else if between 56320 c 57343 then replacement ++ utf8_encode rest
      else
        [224 + c / 4096; 128 + (c / 64) mod 64; 128 + c mod 64]
        ++ utf8_encode rest
  end.

(** [buf.toString()] *)
Definition Buffer_toString (chunk : list Byte.byte) : jsstring :=
  utf8_decode (map Byte.to_N chunk).

(** [Buffer.byteLength(s)] *)
Definition Buffer_byteLength (s : jsstring) : N :=
  N.of_nat (List.length (utf8_encode s)).

(** *** URL query lookup *)

Definition hex_value (c : N) : option N :=
  if between 48 c 57 then Some (c - 48)
  else if between 65 c 70 then Some (c - 55)
  else if between 97 c 102 then Some (c - 87)
  else None.

(** Percent-decoding of a byte sequence. *)
Fixpoint percent_decode (bytes : list N) : list N :=
  match bytes with
  | [] => []
  | b :: rest =>
      match rest with
      | h :: l :: rest' =>
          match b =? 37, hex_value h, hex_value l with
          | true, Some x, Some y => (16 * x + y) :: percent_decode rest'
          | _, _, _ => b :: percent_decode rest
          end
      | _ => b :: percent_decode rest
      end
  end.

(** A name or value of [application/x-www-form-urlencoded] text. *)
Definition form_decode (s : jsstring) : jsstring :=
  utf8_decode
    (percent_decode
       (map (fun b => if b =? 43 then 32 else b) (utf8_encode s))).

(** The text before the first [c], and the text after it if [c] occurs. *)
Fixpoint break_at (c : N) (s : jsstring) : jsstring * option jsstring :=
  match s with
  | [] => ([], None)
  | x :: rest =>
      if x =? c then ([], Some rest)
      else let '(a, b) := break_at c rest in (x :: a, b)
  end.

Definition is_c0_or_space (c : N) : bool := c <=? 32.

Definition is_tab_or_newline (c : N) : bool :=
  (c =? 9) || (c =? 10) || (c =? 13).

Fixpoint drop_while (f : N -> bool) (s : jsstring) : jsstring :=
  match s with
  | c :: rest => if f c then drop_while f rest else s
  | [] => []
  end.

(** What the URL parser does to its input before reading it. *)
Definition url_clean (input : jsstring) : jsstring :=
  filter (fun c => negb (is_tab_or_newline c))
    (rev (drop_while is_c0_or_space
            (rev (drop_while is_c0_or_space input)))).

(** The query of a URL reference: the text between the first [?] that
    comes before any [#], and the [#] that follows it. *)
Definition url_query (input : jsstring) : option jsstring :=
  match break_at 63 (fst (break_at 35 (url_clean input))) with
  | (_, q) => q
  end.

Definition search_pairs (query : jsstring) : list (jsstring * jsstring) :=
  map (fun piece =>
         let '(name, value) := break_at 61 piece in
         (form_decode name,
          match value with
          | Some v => form_decode v
          | None => []
          end))
      (filter (fun piece => negb (streq piece [])) (split 38 query)).

Fixpoint first_value (name : jsstring) (pairs : list (jsstring * jsstring))
  : nullable :=
  match pairs with
  | [] => None
  | (n, v) :: rest => if streq n name then Some v else first_value name rest
  end.

(** [new URL(input, base).searchParams.get(name)] for a valid [base]
    without a query. *)
Definition URL_searchParams_get (input base name : jsstring)
  : completion nullable :=
  match url_query input with
  | Some q => Normal (first_value name (search_pairs q))
  | None => Normal None
  end.

(** *** JSON.parse *)

Definition is_json_space (c : N) : bool :=
  (c =? 32) || (c =? 9) || (c =? 10) || (c =? 13).

Definition skip_space (s : jsstring) : jsstring := drop_while is_json_space s.

Definition is_digit (c : N) : bool := between 48 c 57.

(** The characters of a string after its opening quote, up to the closing
    one, with the escapes resolved. *)
Fixpoint string_body (s : jsstring) : option (jsstring * jsstring) :=
  match s with
  | [] => None
  | c :: rest =>
      if c =? 34 then Some ([], rest)
      else if c =? 92 then
        match rest with
        | [] => None
        | e :: rest1 =>
            let simple (x : N) :=
              match string_body rest1 with
              | Some (body, r) => Some (x :: body, r)
              | None => None
              end in
            if (e =? 34) || (e =? 92) || (e =? 47) then simple e
            else if e =? 98 then simple 8
            else if e =? 102 then simple 12
            else if e =? 110 then simple 10
            else if e =? 114 then simple 13
            else if e =? 116 then simple 9
            else if e =? 117 then
              match rest1 with
              | a :: b :: c' :: d :: rest2 =>
                  match hex_value a, hex_value b, hex_value c', hex_value d,
                        string_body rest2 with
                  | Some x, Some y, Some z, Some w, Some (body, r) =>
                      Some ((4096 * x + 256 * y + 16 * z + w) :: body, r)
                  | _, _, _, _, _ => None
                  end
              | _ => None
              end
            else None
        end
      else if c <? 32 then None
      else
        match string_body rest with
        | Some (body, r) => Some (c :: body, r)
        | None => None
        end
  end.

(** The leading digits of [s] as a number, how many there are, the rest. *)
Fixpoint digits (value : Z) (count : nat) (s : jsstring)
  : Z * nat * jsstring :=
  match s with
  | c :: rest =>
      if is_digit c then digits (10 * value + Z.of_N (c - 48)) (S count) rest
      else (value, count, s)
  | [] => (value, count, s)
  end.

(** The double nearest to [m * 10^e], for [m >= 0]. *)
Definition decimal_to_double (negative : bool) (m e : Z) : spec_float :=
  match m with
  | Zpos p =>
      if (0 <=? e)%Z then
        binary_normalize 53 1024
          (if negative then Z.opp (m * 10 ^ e) else m * 10 ^ e)%Z 0 negative
      else
        match (10 ^ (- e))%Z with
        | Zpos q =>
            SFdiv 53 1024 (S754_finite negative p 0) (S754_finite false q 0)
        | _ => S754_nan
        end
  | _ => S754_zero negative
  end.

(** A JSON number: [-? int frac? exp?]. *)
Definition number (s : jsstring) : option (spec_float * jsstring) :=
  let '(negative, s1) :=
    match s with
    | c :: rest => if c =? 45 then (true, rest) else (false, s)
    | [] => (false, s)
    end in
  let int_part :=
    match s1 with
    | c :: rest =>
        if c =? 48 then Some (0%Z, rest)
        else if is_digit c then
          let '(v, _, r) := digits 0 0 s1 in Some (v, r)
        else None
    | [] => None
    end in
  match int_part with
  | None => None
  | Some (m, s2) =>
      let frac_part :=
        match s2 with
        | c :: rest =>
            if c =? 46 then
              match digits m 0 rest with
              | (_, O, _) => None
              | (m', n, r) => Some (m', Z.of_nat n, r)
              end
            else Some (m, 0%Z, s2)
        | [] => Some (m, 0%Z, s2)
        end in
      match frac_part with
      | None => None
      | Some (m', scale, s3) =>
          let exp_part :=
            match s3 with
            | c :: rest =>
                if (c =? 101) || (c =? 69) then
                  let '(minus, rest') :=
                    match rest with
                    | d :: r => if d =? 45 then (true, r)
                                else if d =? 43 then (false, r)
                                else (false, rest)
                    | [] => (false, rest)
                    end in
                  match digits 0 0 rest' with
                  | (_, O, _) => None
                  | (x, _, r) => Some (if minus then Z.opp x else x, r)
                  end
                else Some (0%Z, s3)
            | [] => Some (0%Z, s3)
            end in
          match exp_part with
          | None => None
          | Some (x, s4) =>
              Some (decimal_to_double negative m' (x - scale), s4)
          end
      end
  end.

(** Array indices come first among the keys of an object. *)
Definition array_index (k : jsstring) : option Z :=
  match k with
  | [] => None
  | c :: rest =>
      if forallb is_digit k && (negb (c =? 48) || streq rest []) then
        let '(v, _, _) := digits 0 0 k in
        if (v <? 4294967295)%Z then Some v else None
      else None
  end.

(** Defining property [k]: a key already there keeps its place. *)
Fixpoint define (k : jsstring) (v : json) (fields : list (jsstring * json))
  : list (jsstring * json) :=
  match fields with
  | [] => [(k, v)]
  | (k', v') :: rest =>
      if streq k' k then (k', v) :: rest else (k', v') :: define k v rest
  end.

Fixpoint insert_index (i : Z) (kv : jsstring * json)
    (sorted : list (Z * (jsstring * json))) : list (Z * (jsstring * json)) :=
  match sorted with
  | [] => [(i, kv)]
  | (j, kv') :: rest =>
      if (i <? j)%Z then (i, kv) :: sorted
      else (j, kv') :: insert_index i kv rest
  end.

(** The property order of an object built by defining [members] in turn. *)
Definition object_of (members : list (jsstring * json)) : json :=
  let fields := fold_left (fun acc kv => define (fst kv) (snd kv) acc)
                          members [] in
  let indexed :=
    fold_left (fun acc kv =>
                 match array_index (fst kv) with
                 | Some i => insert_index i kv acc
                 | None => acc
                 end) fields [] in
  JObj (map snd indexed
        ++ filter (fun kv => match array_index (fst kv) with
                             | Some _ => false
                             | None => true
                             end) fields).

Fixpoint value (fuel : nat) (s : jsstring) : option (json * jsstring) :=
  match fuel with
  | O => None
  | S fuel' =>
      match skip_space s with
      | [] => None
      | c :: rest =>
          if c =? 34 then
            match string_body rest with
            | Some (body, r) => Some (JStr body, r)
            | None => None
            end
          else if c =? 91 then
            match skip_space rest with
            | d :: r => if d =? 93 then Some (JArr [], r)
                        else match elements fuel' rest with
                             | Some (items, r') => Some (JArr items, r')
                             | None => None
                             end
            | [] => None
            end
          else if c =? 123 then
            match skip_space rest with
            | d :: r => if d =? 125 then Some (JObj [], r)
                        else match members fuel' rest with
                             | Some (ms, r') => Some (object_of ms, r')
                             | None => None
                             end
            | [] => None
            end
          else if startsWith (c :: rest) (lit "true") then
            Some (JBool true, slice 4 (c :: rest))
          else if startsWith (c :: rest) (lit "false") then
            Some (JBool false, slice 5 (c :: rest))
          else if startsWith (c :: rest) (lit "null") then
            Some (JNull, slice 4 (c :: rest))
          else
            match number (c :: rest) with
            | Some (x, r) => Some (JNum x, r)
            | None => None
            end
      end
  end

with elements (fuel : nat) (s : jsstring) : option (list json * jsstring) :=
  match fuel with
  | O => None
  | S fuel' =>
      match value fuel' s with
      | None => None
      | Some (v, rest) =>
          match skip_space rest with
          | c :: r =>
              if c =? 44 then
                match elements fuel' r with
                | Some (vs, r') => Some (v :: vs, r')
                | None => None
                end
              else if c =? 93 then Some ([v], r)
              else None
          | [] => None
          end
      end
  end

with members (fuel : nat) (s : jsstring)
  : option (list (jsstring * json) * jsstring) :=
  match fuel with
  | O => None
  | S fuel' =>
      match skip_space s with
      | q :: rest =>
          if q =? 34 then
            match string_body rest with
            | None => None
            | Some (k, rest1) =>
                match skip_space rest1 with
                | colon :: rest2 =>
                    if colon =? 58 then
                      match value fuel' rest2 with
                      | None => None
                      | Some (v, rest3) =>
                          match skip_space rest3 with
                          | c :: r =>
                              if c =? 44 then
                                match members fuel' r with
                                | Some (ms, r') => Some ((k, v) :: ms, r')
                                | None => None
                                end
                              else if c =? 125 then Some ([(k, v)], r)
                              else None
                          | [] => None
                          end
                      end
                    else None
                | [] => None
                end
            end
          else None
      | [] => None
      end
  end.

(** [JSON.parse(text)]; every call of the parser consumes a character, so
    the fuel is never the reason for a failure. *)
Definition JSON_parse (text : jsstring) : completion json :=
  match value (2 + 2 * List.length text) text with
  | Some (v, rest) =>
      match skip_space rest with
      | [] => Normal v
      | _ :: _ => Throw (lit "Unexpected token in JSON")
      end
  | None => Throw (lit "Unexpected token in JSON")
  end.

(** *** JSON.stringify *)

Definition hex_digit (n : N) : N := if n <? 10 then 48 + n else 87 + n.

(** [\uXXXX] with lower-case digits. *)
Definition unicode_escape (c : N) : jsstring :=
  [92; 117; hex_digit (c / 4096); hex_digit ((c / 256) mod 16);
   hex_digit ((c / 16) mod 16); hex_digit (c mod 16)].

(** The characters of a quoted string: quote, backslash and controls are
    escaped, and so is a surrogate without its partner. *)
Fixpoint quote_body (s : jsstring) : jsstring :=
  match s with
  | [] => []
  | c :: rest =>
      if c =? 34 then [92; 34] ++ quote_body rest
      else if c =? 92 then [92; 92] ++ quote_body rest
      else if c =? 8 then [92; 98] ++ quote_body rest
      else if c =? 12 then [92; 102] ++ quote_body rest
      else if c =? 10 then [92; 110] ++ quote_body rest
      else if c =? 13 then [92; 114] ++ quote_body rest
      else if c =? 9 then [92; 116] ++ quote_body rest
      else if c <? 32 then unicode_escape c ++ quote_body rest
      else if between 55296 c 56319 then
        match rest with
        | d :: rest' =>
            if between 56320 d 57343 then c :: d :: quote_body rest'
            else unicode_escape c ++ quote_body rest
        | [] => unicode_escape c
        end
      else if between 56320 c 57343 then unicode_escape c ++ quote_body rest
      else c :: quote_body rest
  end.

Definition quote (s : jsstring) : jsstring := [34] ++ quote_body s ++ [34].

(** Decimal digits of an integer, sign included. *)
Definition dec_Z (z : Z) : jsstring :=
  match z with
  | Zneg p => lit "-" ++ dec (Npos p)
  | _ => dec (Z.to_N z)
  end.

(** [p / q < 10^n] for positive [p] and [q]. *)
Definition below_pow10 (p q n : Z) : bool :=
  (if 0 <=? n then p <? q * 10 ^ n else p * 10 ^ (- n) <? q)%Z.

(** The least [n] from [n0] on with [p / q < 10^n]. *)
Fixpoint magnitude (fuel : nat) (p q n0 : Z) : Z :=
  match fuel with
  | O => n0
  | S fuel' => if below_pow10 p q n0 then n0
               else magnitude fuel' p q (n0 + 1)%Z
  end.

Definition same_double (x y : spec_float) : bool :=
  match SFcompare x y with
  | Some Eq => true
  | _ => false
  end.

(** Number::toString, step 5: the shortest digit string [s] of [k] digits
    and the exponent [n] with [s * 10^(n-k)] reading back as [x]; of two
    such [s] the one nearer to [x].  [x] is [p / q]. *)
Fixpoint shortest (fuel : nat) (k : Z) (x : spec_float) (p q n : Z)
  : Z * Z * Z :=
  let e := (n - k)%Z in
  let lo := (if 0 <=? e then p / (q * 10 ^ e) else p * 10 ^ (- e) / q)%Z in
  let hi := (lo + 1)%Z in
  let ok s := same_double (decimal_to_double false s e) x in
  (* is [lo] at least as near to [p / q] as [hi]? *)
  let lo_nearer :=
    (if 0 <=? e then 2 * p <=? (2 * lo + 1) * 10 ^ e * q
     else 2 * p * 10 ^ (- e) <=? (2 * lo + 1) * q)%Z in
  let pick s := if (s =? 10 ^ k)%Z then ((s / 10)%Z, k, (n + 1)%Z)
                else (s, k, n) in
  match fuel with
  | O => pick lo
  | S fuel' =>
      match ok lo, ok hi with
      | true, true => pick (if lo_nearer then lo else hi)
      | true, false => pick lo
      | false, true => pick hi
      | false, false => shortest fuel' (k + 1)%Z x p q n
      end
  end.

Definition zeros (n : Z) : jsstring := repeat 48 (Z.to_nat n).

(** Number::toString for a positive finite double [m * 2^e]. *)
Definition positive_to_string (m : positive) (e : Z) : jsstring :=
  let x := binary_normalize 53 1024 (Zpos m) e false in
  let p := (if 0 <=? e then Zpos m * 2 ^ e else Zpos m)%Z in
  let q := (if 0 <=? e then 1 else 2 ^ (- e))%Z in
  let '(s, k, n) := shortest 17 1 x p q (magnitude 800 p q (-400)) in
  let ds := dec_Z s in
  if ((k <=? n) && (n <=? 21))%Z then ds ++ zeros (n - k)
  else if ((0 <? n) && (n <=? 21))%Z then
    firstn (Z.to_nat n) ds ++ lit "." ++ skipn (Z.to_nat n) ds
  else if ((-6 <? n) && (n <=? 0))%Z then
    lit "0." ++ zeros (- n) ++ ds
  else
    let exponent :=
      lit "e" ++ (if (0 <=? n - 1)%Z then lit "+" else []) ++ dec_Z (n - 1) in
    match ds with
    | d :: (_ :: _) as more => d :: lit "." ++ more ++ exponent
    | _ => ds ++ exponent
    end.

(** Number::toString as [JSON.stringify] uses it: a number that is not
    finite is written [null]. *)
Definition number_to_string (x : spec_float) : jsstring :=
  match x with
  | S754_zero _ => lit "0"
  | S754_finite negative m e =>
      (if negative then lit "-" else []) ++ positive_to_string m e
  | _ => lit "null"
  end.

Fixpoint join (sep : jsstring) (parts : list jsstring) : jsstring :=
  match parts with
  | [] => []
  | [x] => x
  | x :: rest => x ++ sep ++ join sep rest
  end.

(** [JSON.stringify(v)] without indentation. *)
Fixpoint JSON_stringify (v : json) : jsstring :=
  match v with
  | JNull => lit "null"
  | JBool true => lit "true"
  | JBool false => lit "false"
  | JNum x => number_to_string x
  | JStr s => quote s
  | JArr items => lit "[" ++ join (lit ",") (map JSON_stringify items) ++ lit "]"
  | JObj fields =>
      lit "{"
      ++ join (lit ",")
           (map (fun kv => quote (fst kv) ++ lit ":" ++ JSON_stringify (snd kv))
                fields)
      ++ lit "}"
  end.

#[export] Instance runtime : Runtime :=
  Build_Runtime JSON_parse JSON_stringify URL_searchParams_get
                Buffer_toString Buffer_byteLength.

End Node.

(** ** Observations *)

(** What went to standard output. *)
Definition stdout_lines (effs : list effect) : list jsstring :=
  flat_map (fun e => match e with
                     | Stdout text => [text]
                     | _ => []
                     end) effs.

(** The requests sent. *)
Definition requests (effs : list effect) : list (request * option jsstring) :=
  flat_map (fun e => match e with
                     | HttpRequest options body => [(options, body)]
                     | _ => []
                     end) effs.

(** An SSE frame as the loop meets it: the payload of a [data: ] line with
    the event type pending at that line. *)
Definition frame := (nullable * jsstring)%type.

(** The frames of a sequence of complete lines, following the branches of
    the loop on [currentEvent]. *)
Fixpoint frames (currentEvent : nullable) (lines : list jsstring)
  : list frame :=
  match lines with
  | [] => []
  | line :: rest =>
      if startsWith line (lit "event: ") then
        frames (Some (trim (slice 7 line))) rest
      else if startsWith line (lit "data: ") then
        (currentEvent, slice 6 line) :: frames None rest
      else if streq line [] then frames None rest
      else frames currentEvent rest
  end.

(** The complete lines of a text: [lines] after [lines.pop()]. *)
Definition complete_lines (text : jsstring) : list jsstring :=
  removelast (split_lf text).

Definition is_sse_event (e : event) : bool :=
  match e with
  | SseResponse _ | SseData _ | SseEnd | SseError _ => true
  | _ => false
  end.

Definition running (w : world) : Prop :=
  lifecycle w = Connecting \/ lifecycle w = Active.

Section Observations.

Context {R : Runtime}.
Variable sseUrl : url.

(** The text received on the SSE stream during [events]. *)
Definition sse_text (events : list event) : jsstring :=
  flat_map (fun e => match e with
                     | SseData chunk => Buffer_toString chunk
                     | _ => []
                     end) events.

(** The [sessionId] query parameter of an [endpoint] frame. *)
Definition endpoint_parameter (f : frame) : option nullable :=
  if is_str (fst f) (lit "endpoint") then
    match URL_searchParams_get (snd f) (endpoint_base sseUrl)
                               (lit "sessionId") with
    | Normal v => Some v
    | Throw _ => None
    end
  else None.

(** The parameter of the last [endpoint] frame among [fs], [sid] when there
    is none. *)
Definition last_endpoint (sid : nullable) (fs : list frame) : nullable :=
  fold_left (fun s f => match endpoint_parameter f with
                        | Some v => v
                        | None => s
                        end) fs sid.

(** Feeding decoded texts to the ['data'] handler one after the other. *)
Fixpoint on_texts (buffer : jsstring) (currentEvent sessionId : nullable)
    (texts : list jsstring)
  : jsstring * (list effect * completion (nullable * nullable)) :=
  match texts with
  | [] => (buffer, ([], Normal (currentEvent, sessionId)))
  | text :: rest =>
      match on_text sseUrl buffer currentEvent sessionId text with
      | (buffer', (effs, Throw m)) => (buffer', (effs, Throw m))
      | (buffer', (effs, Normal (currentEvent', sessionId'))) =>
          let '(buffer'', (effs', c)) :=
            on_texts buffer' currentEvent' sessionId' rest in
          (buffer'', (effs ++ effs', c))
      end
  end.

(** The state of the ['data'] handler after the stream delivered [text]
    and nothing was thrown: [buffer] is the unfinished last line, and
    [currentEvent] and [sessionId] are what the loop leaves after the
    complete lines. *)
Definition parser_tracks (w : world) (text : jsstring) : Prop :=
  buffer w = last (split_lf text) []
  /\ exists effs,
       for_lines sseUrl None None (complete_lines text)
       = (effs, Normal (currentEvent w, sessionId w)).

(** What holds of a running proxy after [events]. *)
Definition consistent (w : world) (events : list event) : Prop :=
  match sse w with
  | SseConnecting => sessionId w = None /\ sse_text events = []
  | SseOpen => parser_tracks w (sse_text events)
  | SseClosed => sessionId w = None
  end.


End Observations.

(** ** Sample inputs *)

Module Sample.

(** The default [SSE_URL], [http://localhost:3080/sse], parsed. *)
Definition SSE_URL : jsstring := lit "http://localhost:3080/sse".

Definition sseUrl : url :=
  {| protocol := lit "http:"; hostname := lit "localhost";
     port := lit "3080"; pathname := lit "/sse" |}.

Definition clientSessionId : jsstring :=
  lit "123e4567-e89b-42d3-a456-426614174000".

Definition bytes (s : string) : list Byte.byte :=
  map byte_of_ascii (list_ascii_of_string s).

(** Bytes of a text that holds double quotes, written with [']. *)
Definition qbytes (s : string) : list Byte.byte :=
  map (fun b => if Byte.eqb b Byte.x27 then Byte.x22 else b) (bytes s).

Definition nl : list Byte.byte := [Byte.x0a].

(** [event: endpoint\ndata: /sse?sessionId=abc123\n\n] *)
Definition endpoint_chunk : list Byte.byte :=
  bytes "event: endpoint" ++ nl ++ bytes "data: /sse?sessionId=abc123"
  ++ nl ++ nl.

(** [event: endpoint\ndata: /sse\n\n]: an endpoint without a session id. *)
Definition bare_endpoint_chunk : list Byte.byte :=
  bytes "event: endpoint" ++ nl ++ bytes "data: /sse" ++ nl ++ nl.

(** The proxy at start, and once the stream is open. *)
Definition started : world :=
  initialize sseUrl SSE_URL clientSessionId.

Definition opened : world := on_sse_response started 200.

(** The proxy with the session [abc123] established. *)
Definition connected : world :=
  on_sse_data (R := Node.runtime) sseUrl opened endpoint_chunk.

(** [{jsonrpc:"2.0",id:1,method:"ping"}] *)
Definition ping : json :=
  JObj [(lit "jsonrpc", JStr (lit "2.0"));
        (lit "id", JNum (num 1));
        (lit "method", JStr (lit "ping"))].

Definition ping_line : jsstring :=
  qlit "{'jsonrpc':'2.0','id':1,'method':'ping'}".



(** A request whose id is the number zero. *)
Definition zero_id_line : jsstring :=
  qlit "{'jsonrpc':'2.0','id':0,'method':'ping'}".


(** [event: message\ndata: {"jsonrpc":"2.0","id":1,"result":"é"}\n\n] as
    UTF-8, whole and cut between the two bytes [c3 a9] of the letter. *)
Definition accent_head : list Byte.byte :=
  bytes "event: message" ++ nl
  ++ qbytes "data: {'jsonrpc':'2.0','id':1,'result':'" ++ [Byte.xc3].

Definition accent_tail : list Byte.byte :=
  [Byte.xa9] ++ qbytes "'}" ++ nl ++ nl.

Definition accent_chunk : list Byte.byte := accent_head ++ accent_tail.

Definition accent_line (letter : jsstring) : jsstring :=
  qlit "{'jsonrpc':'2.0','id':1,'result':'" ++ letter ++ qlit "'}".

End Sample.

(** ** Further observations *)

Section Coverage.

Context {R : Runtime}.
Variable sseUrl : url.

(** The [options] and body of the POST that [sendMessage] makes for the
    session id [sid] and the payload [postData]. *)
Definition post_request (sid postData : jsstring)
  : request * option jsstring :=
  ({| req_https := is_https sseUrl;
      req_hostname := hostname sseUrl;
      req_port := options_port sseUrl;
      req_path := pathname sseUrl ++ lit "?sessionId=" ++ sid;
      req_method := lit "POST";
      req_headers :=
        [(lit "Content-Type", Str (lit "application/json"));
         (lit "Content-Length", Num (Buffer_byteLength postData))] |},
   Some postData).

(** The effects the handlers can have once the proxy has started: log
    entries, one line of serialized JSON on standard output, a POST to
    the session endpoint with a non-empty session id, the settling of the
    connection promise, and shutdown.  No second GET is among them. *)
Inductive emitted : effect -> Prop :=
| emitted_stderr (args : list jsstring) : emitted (Stderr args)
| emitted_stdout (v : json) : emitted (Stdout (JSON_stringify v ++ LF))
| emitted_post (sid : jsstring) (message : json) :
    sid <> [] ->
    emitted (HttpRequest (fst (post_request sid (JSON_stringify message)))
                         (snd (post_request sid (JSON_stringify message))))
| emitted_resolve : emitted ConnectResolve
| emitted_reject (m : jsstring) : emitted (ConnectReject m)
| emitted_destroy : emitted DestroyRequest
| emitted_exit (code : N) : emitted (Exit code).

(** A POST of the proxy, as it appears among the requests of a trace. *)
Definition is_post (r : request * option jsstring) : Prop :=
  exists sid message,
    sid <> [] /\ r = post_request sid (JSON_stringify message).


(** The ['data'] handler of the world on text already decoded:
    [on_sse_data] is this function after [chunk.toString()]. *)
Definition on_sse_text (w : world) (text : jsstring) : world :=
  match on_text sseUrl (buffer w) (currentEvent w) (sessionId w) text with
  | (buffer', (effs, Normal (currentEvent', sessionId'))) =>
      let w' :=
        {| sessionId := sessionId'; sseConnection := sseConnection w;
           sse := sse w; buffer := buffer'; currentEvent := currentEvent';
           lifecycle := lifecycle w; pending := pending w;
           next_id := next_id w; trace := trace w ++ effs |} in
      if existsb is_resolve effs then connect_resolved w' else w'
  | (buffer', (effs, Throw _)) =>
      exit {| sessionId := sessionId w; sseConnection := sseConnection w;
              sse := sse w; buffer := buffer'; currentEvent := currentEvent w;
              lifecycle := lifecycle w; pending := pending w;
              next_id := next_id w; trace := trace w ++ effs |} 1
  end.

(** Two worlds that differ at most in the [sessionId] and [currentEvent]
    of a process that has exited. *)
Definition agree (a b : world) : Prop :=
  trace a = trace b /\ lifecycle a = lifecycle b /\ buffer a = buffer b
  /\ pending a = pending b /\ next_id a = next_id b /\ sse a = sse b
  /\ sseConnection a = sseConnection b
  /\ (running a ->
      sessionId a = sessionId b /\ currentEvent a = currentEvent b).

(** The ids of the suspended handlers are below [next_id] and distinct. *)
Definition fresh (w : world) : Prop :=
  Forall (fun s => s_id s < next_id w) (pending w)
  /\ NoDup (map s_id (pending w)).

(** The reply of the [catch] block to a message whose send failed with
    [m]: none for [null], whose [id] cannot be read; otherwise an envelope
    with the message's [id] when that is truthy and [null] when not. *)
Definition reply (message : json) (m : jsstring) : list effect :=
  match message with
  | JNull => []
  | JObj fields =>
      [Stdout (JSON_stringify
                 (errorResponse (or_null (assoc (lit "id") fields)) m) ++ LF)]
  | _ => [Stdout (JSON_stringify (errorResponse JNull m) ++ LF)]
  end.

End Coverage.

(** Is every code unit of [s] white space? *)
Definition blank (s : jsstring) : bool := forallb is_space s.

(** Does [s] neither start nor end with white space? *)
Definition trimmed (s : jsstring) : bool :=
  match s with
  | [] => true
  | c :: _ => negb (is_space c) && negb (is_space (last s c))
  end.

(** * Properties *)

(** ** Strings and line splitting *)

Lemma streq_spec (a b : jsstring) : streq a b = true <-> a = b.
Proof.
  revert b; induction a as [|x a IH]; intros [|y b]; simpl; split;
    try congruence; try reflexivity.
  - rewrite andb_true_iff, N.eqb_eq, IH. intros [-> ->]; reflexivity.
  - intros H; injection H as -> ->. rewrite N.eqb_refl. simpl.
    apply IH; reflexivity.
Qed.

Lemma streq_refl (a : jsstring) : streq a a = true.
Proof. apply streq_spec; reflexivity. Qed.

Lemma streq_neq (a b : jsstring) : a <> b -> streq a b = false.
Proof.
  intros H. destruct (streq a b) eqn:E; [|reflexivity].
  apply streq_spec in E. contradiction.
Qed.

Lemma split_not_nil (sep : char16) (s : jsstring) : split sep s <> [].
Proof.
  induction s as [|c s IH]; simpl; [discriminate|].
  destruct (c =? sep)%N; [discriminate|].
  destruct (split sep s); [contradiction | discriminate].
Qed.

(** Splitting a concatenation: the complete lines of the first part, then
    the split of its unfinished last line followed by the second part. *)
Lemma split_app (sep : char16) (a b : jsstring) :
  split sep (a ++ b)
  = removelast (split sep a) ++ split sep (last (split sep a) [] ++ b).
Proof.
  induction a as [|x a IH]; [reflexivity|].
  cbn [app split]. destruct (x =? sep)%N eqn:Ex.
  - rewrite IH. pose proof (split_not_nil sep a) as Hne.
    destruct (split sep a) as [|l ls]; [contradiction|]. reflexivity.
  - rewrite IH. pose proof (split_not_nil sep a) as Hne.
    destruct (split sep a) as [|l ls]; [contradiction|].
    destruct ls as [|l2 ls2].
    + cbn [removelast last app split]. rewrite Ex. reflexivity.
    + reflexivity.
Qed.

Lemma last_app_nonempty {A : Type} (l t : list A) (d : A) :
  t <> [] -> last (l ++ t) d = last t d.
Proof.
  intros Hne. induction l as [|x l IH]; [reflexivity|].
  cbn [app]. destruct (l ++ t) as [|y r] eqn:E.
  - destruct l; [contradiction | discriminate].
  - change (last (x :: y :: r) d) with (last (y :: r) d).
    rewrite <- IH. reflexivity.
Qed.

(** A text without line feed is a single unfinished line. *)
Lemma split_no_sep (sep : char16) (s : jsstring) :
  ~ In sep s -> split sep s = [s].
Proof.
  induction s as [|c s IH]; intros Hn; [reflexivity|].
  cbn [split]. destruct (c =? sep)%N eqn:E.
  - apply N.eqb_eq in E. exfalso; apply Hn; left; exact E.
  - rewrite IH; [reflexivity|]. intros Hin; apply Hn; right; exact Hin.
Qed.


(** The unfinished line kept in [buffer] never holds a line feed. *)
Lemma last_split_no_sep (sep : char16) (s : jsstring) :
  ~ In sep (last (split sep s) []).
Proof.
  induction s as [|c s IH]; [simpl; tauto|].
  cbn [split]. pose proof (split_not_nil sep s) as Hne.
  destruct (c =? sep)%N eqn:E.
  - destruct (split sep s) as [|l ls]; [contradiction|]. exact IH.
  - destruct (split sep s) as [|l ls]; [contradiction|].
    destruct ls as [|l2 ls2]; [|exact IH].
    simpl in *. intros [H|H]; [|tauto].
    subst c. rewrite N.eqb_refl in E. discriminate.
Qed.

Lemma data_line_not_event (data : jsstring) :
  startsWith (lit "data: " ++ data) (lit "event: ") = false.
Proof. reflexivity. Qed.

Lemma data_line_is_data (data : jsstring) :
  startsWith (lit "data: " ++ data) (lit "data: ") = true.
Proof. reflexivity. Qed.

Lemma data_line_payload (data : jsstring) :
  slice 6 (lit "data: " ++ data) = data.
Proof. reflexivity. Qed.

(** ** The SSE line loop *)

Section LineLoop.

Context {R : Runtime}.
Variable sseUrl : url.

(** A [data: ] line runs the data branch on the text after the prefix. *)
Lemma on_sse_line_data (currentEvent sessionId : nullable) (data : jsstring) :
  on_sse_line sseUrl currentEvent sessionId (lit "data: " ++ data)
  = on_data_line sseUrl currentEvent sessionId data.
Proof.
  unfold on_sse_line.
  rewrite data_line_not_event, data_line_is_data, data_line_payload.
  reflexivity.
Qed.

(** The data branch leaves no pending event type behind. *)
Lemma on_data_line_resets (currentEvent sessionId : nullable)
    (data : jsstring) effs currentEvent' sessionId' :
  on_data_line sseUrl currentEvent sessionId data
  = (effs, Normal (currentEvent', sessionId')) ->
  currentEvent' = None.
Proof.
  unfold on_data_line.
  destruct (is_str currentEvent (lit "endpoint")).
  - destruct (URL_searchParams_get _ _ _); intros H; inversion H; reflexivity.
  - destruct (is_str currentEvent (lit "message") || falsy currentEvent).
    + destruct (streq data (lit "[DONE]")); [intros H; inversion H; reflexivity|].
      destruct (JSON_parse data); intros H; inversion H; reflexivity.
    + intros H; inversion H; reflexivity.
Qed.

(** C7. A frame whose event type is [message] or absent and whose payload
    is neither valid JSON nor the [[DONE]] sentinel writes nothing to
    standard output and throws nothing: the data branch completes normally
    with exactly one effect, a diagnostic entry whose payload argument is
    the first 50 characters (at most) of the raw data. *)
Theorem malformed_message_payload_is_logged_and_dropped
    (currentEvent sessionId : nullable) (data m : jsstring) :
  currentEvent = Some (lit "message") \/ currentEvent = None ->
  data <> lit "[DONE]" ->
  JSON_parse data = Throw m ->
  frames currentEvent [lit "data: " ++ data] = [(currentEvent, data)]
  /\ on_sse_line sseUrl currentEvent sessionId (lit "data: " ++ data)
     = ([Stderr [lit "Failed to parse SSE message:"; substring0 50 data]],
        Normal (None, sessionId))
  /\ stdout_lines
       (fst (on_sse_line sseUrl currentEvent sessionId (lit "data: " ++ data)))
     = []
  /\ List.length (substring0 50 data) <= 50
  /\ exists rest, data = substring0 50 data ++ rest.
Proof.
  intros Hev Hdone Hparse.
  assert (Hline :
    on_sse_line sseUrl currentEvent sessionId (lit "data: " ++ data)
    = ([Stderr [lit "Failed to parse SSE message:"; substring0 50 data]],
       Normal (None, sessionId))).
  { rewrite on_sse_line_data. unfold on_data_line.
    rewrite (streq_neq _ _ Hdone), Hparse.
    destruct Hev as [-> | ->]; reflexivity. }
  split; [|split; [exact Hline|split; [rewrite Hline; reflexivity|split]]].
  - cbn [frames]. rewrite data_line_not_event, data_line_is_data,
      data_line_payload. reflexivity.
  - apply firstn_le_length.
  - exists (skipn 50 data). symmetry. apply firstn_skipn.
Qed.

(** C5, as the code has it.  A [data: ] line is a frame with the pending
    event type, handled by the data branch, after which no event type is
    pending; an empty line clears the pending event type and does nothing
    else; every other line that starts with neither [event: ] nor [data: ]
    does nothing at all and leaves the pending event type as it was. *)
Theorem sse_line_reset_rules (currentEvent sessionId : nullable) :
  (forall data,
      frames currentEvent [lit "data: " ++ data] = [(currentEvent, data)]
      /\ on_sse_line sseUrl currentEvent sessionId (lit "data: " ++ data)
         = on_data_line sseUrl currentEvent sessionId data
      /\ forall effs currentEvent' sessionId',
           on_data_line sseUrl currentEvent sessionId data
           = (effs, Normal (currentEvent', sessionId')) ->
           currentEvent' = None)
  /\ on_sse_line sseUrl currentEvent sessionId [] = ([], Normal (None, sessionId))
  /\ forall line,
       startsWith line (lit "event: ") = false ->
       startsWith line (lit "data: ") = false ->
       line <> [] ->
       frames currentEvent [line] = []
       /\ on_sse_line sseUrl currentEvent sessionId line
          = ([], Normal (currentEvent, sessionId)).
Proof.
  split; [|split].
  - intros data. split; [|split].
    + cbn [frames]. rewrite data_line_not_event, data_line_is_data,
        data_line_payload. reflexivity.
    + apply on_sse_line_data.
    + intros effs ev' sid'. apply on_data_line_resets.
  - reflexivity.
  - intros line He Hd Hne. unfold on_sse_line. cbn [frames].
    rewrite He, Hd.
    assert (Hs : streq line [] = false) by (apply streq_neq; exact Hne).
    rewrite Hs. split; reflexivity.
Qed.

End LineLoop.

(** C5 as stated fails: with [endpoint] pending, the line [id: 7] starts
    with neither [event: ] nor [data: ], and [endpoint] is still pending
    after it. *)
Lemma other_line_keeps_pending_event :
  on_sse_line (R := Node.runtime) Sample.sseUrl
    (Some (lit "endpoint")) None (lit "id: 7")
  = ([], Normal (Some (lit "endpoint"), None))
  /\ Some (lit "endpoint") <> (None : nullable).
Proof. split; [reflexivity | discriminate]. Qed.

Lemma sse_line_reset_rules_witness :
  frames (Some (lit "endpoint")) [lit "id: 7"] = []
  /\ on_sse_line (R := Node.runtime) Sample.sseUrl
       (Some (lit "endpoint")) None (lit "id: 7")
     = ([], Normal (Some (lit "endpoint"), None)).
Proof.
  apply (proj2 (proj2 (sse_line_reset_rules (R := Node.runtime) Sample.sseUrl
                         (Some (lit "endpoint")) None)) (lit "id: 7")).
  - reflexivity.
  - reflexivity.
  - cbv; discriminate.
Defined.

Lemma malformed_message_payload_witness :
  frames None [lit "data: " ++ lit "not json"] = [(None, lit "not json")]
  /\ on_sse_line (R := Node.runtime) Sample.sseUrl None None
       (lit "data: " ++ lit "not json")
     = ([Stderr [lit "Failed to parse SSE message:";
                 substring0 50 (lit "not json")]],
        Normal (None, None))
  /\ stdout_lines
       (fst (on_sse_line (R := Node.runtime) Sample.sseUrl None None
               (lit "data: " ++ lit "not json")))
     = []
  /\ List.length (substring0 50 (lit "not json")) <= 50
  /\ exists rest, lit "not json" = substring0 50 (lit "not json") ++ rest.
Proof.
  apply (malformed_message_payload_is_logged_and_dropped
           (R := Node.runtime) Sample.sseUrl None None
           (lit "not json") (lit "Unexpected token in JSON")).
  - right; reflexivity.
  - cbv; discriminate.
  - vm_compute; reflexivity.
Defined.

(** ** The sender and the stdin dispatcher *)

Section Dispatcher.

Context {R : Runtime}.
Variable sseUrl : url.

Lemma requests_app (a b : list effect) :
  requests (a ++ b) = requests a ++ requests b.
Proof. apply flat_map_app. Qed.

Lemma stdout_lines_app (a b : list effect) :
  stdout_lines (a ++ b) = stdout_lines a ++ stdout_lines b.
Proof. apply flat_map_app. Qed.







(** The error envelope of a message that is an object: its [id] is the
    message's own when that is truthy, and [null] when it is missing or
    falsy. *)
Lemma catch_block_object (line m : jsstring) (fields : list (jsstring * json)) :
  JSON_parse line = Normal (JObj fields) ->
  catch_block line m
  = [Stderr [lit "Error processing message:"; m];
     Stdout (JSON_stringify
               (errorResponse (or_null (assoc (lit "id") fields)) m) ++ LF)].
Proof. intros H. unfold catch_block. rewrite H. reflexivity. Qed.

Lemma error_envelope_echoes_truthy_id (line m : jsstring)
    (fields : list (jsstring * json)) (id : json) :
  JSON_parse line = Normal (JObj fields) ->
  assoc (lit "id") fields = Some id ->
  truthy id = true ->
  stdout_lines (catch_block line m)
  = [JSON_stringify (errorResponse id m) ++ LF].
Proof.
  intros Hp Hid Ht. rewrite (catch_block_object line m fields Hp), Hid.
  unfold or_null. rewrite Ht. reflexivity.
Qed.

(** A falsy id (zero, the empty string, [false], [null]) is answered with
    [id: null]. *)
Lemma error_envelope_drops_falsy_id (line m : jsstring)
    (fields : list (jsstring * json)) (id : json) :
  JSON_parse line = Normal (JObj fields) ->
  assoc (lit "id") fields = Some id ->
  truthy id = false ->
  stdout_lines (catch_block line m)
  = [JSON_stringify (errorResponse JNull m) ++ LF].
Proof.
  intros Hp Hid Ht. rewrite (catch_block_object line m fields Hp), Hid.
  unfold or_null. rewrite Ht. reflexivity.
Qed.


Lemma in_flight_app (w : world) (l : list suspended) :
  in_flight (set_pending w (pending w ++ l))
  = in_flight w
    ++ filter (fun s => match s_await s with
                        | AwaitingResponse => true
                        | AlreadyRejected _ => false
                        end) l.
Proof. unfold in_flight. cbn [set_pending pending]. apply filter_app. Qed.


End Dispatcher.

(** ** The dispatcher on concrete input *)






(** C8 fails on the code.  The request [{"jsonrpc":"2.0","id":0,
    "method":"ping"}] is sent, the server answers 500, and the error
    envelope written to standard output carries [id: null], not the [0] of
    the request: [parsedMessage.id || null] drops every falsy id. *)
Theorem zero_id_is_answered_with_null_id :
  JSON_parse (Runtime := Node.runtime) Sample.zero_id_line
  = Normal (JObj [(lit "jsonrpc", JStr (lit "2.0"));
                  (lit "id", JNum (num 0));
                  (lit "method", JStr (lit "ping"))])
  /\ option_map (fun w => stdout_lines (trace w))
       (run (R := Node.runtime) Sample.sseUrl Sample.connected
            [StdinLine Sample.zero_id_line; PostEnd 0 500 (lit "boom")])
     = Some [qlit "{'jsonrpc':'2.0','id':null,'error':{'code':-32603,'message':'HTTP 500: boom'}}"
             ++ LF].
Proof. split; vm_compute; reflexivity. Qed.

(** C6. From a freshly opened stream, the chunk
    [event: endpoint\ndata: /sse?sessionId=abc123\n\n] sets the session id
    to [abc123] (and lets startup proceed); [sendMessage] of the ping
    message then makes exactly one request, a POST to
    [{pathname}?sessionId=abc123] with [Content-Type: application/json],
    the length of the body, and the compact serialization of the message
    as body; the promise resolves on every 2xx status. *)
Theorem endpoint_then_ping_posts_to_session (sseUrl : url)
    (SSE_URL clientSessionId : jsstring) (statusCode : N) (data : jsstring) :
  (200 <= statusCode < 300)%N ->
  exists w,
    run (R := Node.runtime) sseUrl (initialize sseUrl SSE_URL clientSessionId)
        [SseResponse 200; SseData Sample.endpoint_chunk]
    = Some w
    /\ sessionId w = Some (lit "abc123")
    /\ lifecycle w = Active
    /\ sendMessage (R := Node.runtime) sseUrl (sessionId w) Sample.ping
       = ([HttpRequest
             {| req_https := is_https sseUrl;
                req_hostname := hostname sseUrl;
                req_port := options_port sseUrl;
                req_path := pathname sseUrl ++ lit "?sessionId=abc123";
                req_method := lit "POST";
                req_headers :=
                  [(lit "Content-Type", Str (lit "application/json"));
                   (lit "Content-Length", Num 40)] |}
             (Some (qlit "{'jsonrpc':'2.0','id':1,'method':'ping'}"))],
          AwaitingResponse)
    /\ sendMessage_end statusCode data = Normal tt.
Proof.
  intros [Hlo Hhi].
  eexists. split; [reflexivity|].
  split; [reflexivity|]. split; [reflexivity|]. split; [reflexivity|].
  unfold sendMessage_end.
  apply N.leb_le in Hlo. apply N.ltb_lt in Hhi. rewrite Hlo, Hhi. reflexivity.
Qed.

Lemma endpoint_then_ping_witness :
  (200 <= 204 < 300)%N
  /\ exists w,
       run (R := Node.runtime) Sample.sseUrl Sample.started
           [SseResponse 200; SseData Sample.endpoint_chunk]
       = Some w
       /\ sessionId w = Some (lit "abc123")
       /\ sendMessage_end 204 [] = Normal tt.
Proof.
  split; [lia|].
  destruct (endpoint_then_ping_posts_to_session Sample.sseUrl Sample.SSE_URL
              Sample.clientSessionId 204 [])
    as (w & Hrun & Hsid & _ & _ & Hend).
  - lia.
  - exists w. split; [exact Hrun|]. split; [exact Hsid | exact Hend].
Defined.

(** ** The SSE stream across chunks *)

Section Stream.

Context {R : Runtime}.
Variable sseUrl : url.

(** The loop over two runs of lines is the loop over the first, then over
    the second from where the first stopped. *)
Lemma for_lines_app (l1 l2 : list jsstring) :
  forall ev sid,
    for_lines sseUrl ev sid (l1 ++ l2)
    = match for_lines sseUrl ev sid l1 with
      | (effs, Throw m) => (effs, Throw m)
      | (effs, Normal (ev', sid')) =>
          let '(effs', c) := for_lines sseUrl ev' sid' l2 in
          (effs ++ effs', c)
      end.
Proof.
  induction l1 as [|line l1 IH]; intros ev sid.
  - cbn. destruct (for_lines sseUrl ev sid l2); reflexivity.
  - cbn [app for_lines].
    destruct (on_sse_line sseUrl ev sid line) as [effs [[ev1 sid1]|m]];
      [|reflexivity].
    rewrite IH.
    destruct (for_lines sseUrl ev1 sid1 l1) as [effs1 [[ev2 sid2]|m]];
      [|reflexivity].
    destruct (for_lines sseUrl ev2 sid2 l2) as [effs2 c].
    rewrite app_assoc. reflexivity.
Qed.

(** The handler on [text ++ more] from [buffer]: the complete lines of
    [buffer ++ text], then the handler on [more] from what was left. *)
Lemma on_text_app (buffer text more : jsstring) (ev sid : nullable) :
  on_text sseUrl buffer ev sid (text ++ more)
  = match on_text sseUrl buffer ev sid text with
    | (buffer', (effs, Throw m)) =>
        (fst (on_text sseUrl buffer' None None more), (effs, Throw m))
    | (buffer', (effs, Normal (ev', sid'))) =>
        let '(buffer'', (effs', c)) := on_text sseUrl buffer' ev' sid' more in
        (buffer'', (effs ++ effs', c))
    end.
Proof.
  unfold on_text, split_lf. rewrite app_assoc, split_app.
  set (lines := split 10%N (buffer ++ text)).
  set (tail := split 10%N (last lines [] ++ more)).
  assert (Hne : tail <> []) by apply split_not_nil.
  assert (Hlast : last (removelast lines ++ tail) [] = last tail [])
    by (apply last_app_nonempty; exact Hne).
  rewrite Hlast, (removelast_app _ Hne), for_lines_app.
  destruct (for_lines sseUrl ev sid (removelast lines))
    as [effs [[ev' sid']|m]]; [|reflexivity].
  destruct (for_lines sseUrl ev' sid' (removelast tail)); reflexivity.
Qed.

(** At the level of decoded text the handler does not depend on how the
    text is cut: fed piece by piece it does what it does on the whole, as
    long as nothing is thrown; a throw happens at the same line either
    way. *)
Lemma on_texts_concat (texts : list jsstring) :
  forall buffer ev sid,
    ~ In 10%N buffer ->
    snd (on_texts sseUrl buffer ev sid texts)
    = snd (on_text sseUrl buffer ev sid (List.concat texts))
    /\ (forall s, snd (snd (on_texts sseUrl buffer ev sid texts)) = Normal s ->
        fst (on_texts sseUrl buffer ev sid texts)
        = fst (on_text sseUrl buffer ev sid (List.concat texts))).
Proof.
  induction texts as [|text texts IH]; intros buffer ev sid Hbuf.
  - cbn [on_texts List.concat]. unfold on_text, split_lf.
    rewrite app_nil_r, (split_no_sep _ _ Hbuf). split; reflexivity.
  - cbn [on_texts List.concat]. rewrite on_text_app.
    assert (Hb' : ~ In 10%N (fst (on_text sseUrl buffer ev sid text)))
      by apply last_split_no_sep.
    destruct (on_text sseUrl buffer ev sid text)
      as [buffer' [effs [[ev' sid']|m]]].
    + destruct (IH buffer' ev' sid' Hb') as [IH1 IH2].
      destruct (on_texts sseUrl buffer' ev' sid' texts) as [b1 [e1 c1]].
      destruct (on_text sseUrl buffer' ev' sid' (List.concat texts))
        as [b2 [e2 c2]].
      cbn [fst snd] in *. injection IH1 as -> ->.
      split; [reflexivity|]. intros s Hs. apply (IH2 s Hs).
    + cbn [fst snd]. split; [reflexivity | discriminate].
Qed.

(** The data branch writes the session id only for an endpoint frame. *)
Lemma on_data_line_session (ev sid : nullable) (data : jsstring)
    effs ev' sid' :
  on_data_line sseUrl ev sid data = (effs, Normal (ev', sid')) ->
  ev' = None
  /\ sid' = match endpoint_parameter sseUrl (ev, data) with
            | Some v => v
            | None => sid
            end.
Proof.
  unfold on_data_line, endpoint_parameter. cbn [fst snd].
  destruct (is_str ev (lit "endpoint")).
  - destruct (URL_searchParams_get data (endpoint_base sseUrl)
                (lit "sessionId")); intros H; inversion H; split; reflexivity.
  - destruct (is_str ev (lit "message") || falsy ev).
    + destruct (streq data (lit "[DONE]"));
        [intros H; inversion H; split; reflexivity|].
      destruct (JSON_parse data); intros H; inversion H; split; reflexivity.
    + intros H; inversion H; split; reflexivity.
Qed.

Lemma on_sse_line_session (ev sid : nullable) (line : jsstring)
    effs ev' sid' (rest : list jsstring) :
  on_sse_line sseUrl ev sid line = (effs, Normal (ev', sid')) ->
  last_endpoint sseUrl sid (frames ev (line :: rest))
  = last_endpoint sseUrl sid' (frames ev' rest).
Proof.
  unfold on_sse_line. cbn [frames].
  destruct (startsWith line (lit "event: "));
    [intros H; inversion H; reflexivity|].
  destruct (startsWith line (lit "data: ")).
  - intros H. apply on_data_line_session in H. destruct H as [-> ->].
    reflexivity.
  - destruct (streq line []); intros H; inversion H; reflexivity.
Qed.

(** The session id after the loop is the parameter of the last endpoint
    frame among the lines, the old one if there was none. *)
Lemma for_lines_session (lines : list jsstring) :
  forall ev sid effs ev' sid',
    for_lines sseUrl ev sid lines = (effs, Normal (ev', sid')) ->
    sid' = last_endpoint sseUrl sid (frames ev lines).
Proof.
  induction lines as [|line lines IH]; intros ev sid effs ev' sid' H.
  - cbn in H. inversion H. reflexivity.
  - cbn [for_lines] in H.
    destruct (on_sse_line sseUrl ev sid line) as [e1 [[ev1 sid1]|m]] eqn:E1;
      [|discriminate H].
    destruct (for_lines sseUrl ev1 sid1 lines) as [e2 c2] eqn:E2.
    inversion H; subst.
    rewrite (on_sse_line_session ev sid line e1 ev1 sid1 lines E1).
    exact (IH _ _ _ _ _ E2).
Qed.

End Stream.

(** ** The session id *)

Section Session.

Context {R : Runtime}.
Variable sseUrl : url.

Lemma step_running (w w' : world) (e : event) :
  step sseUrl w e = Some w' -> running w.
Proof.
  unfold step, running. destruct (lifecycle w); [auto | auto | discriminate].
Qed.

Lemma run_running (events : list event) (w w' : world) :
  run sseUrl w events = Some w' -> running w' -> running w.
Proof.
  destruct events as [|e events]; cbn [run].
  - intros H; inversion H; auto.
  - destruct (step sseUrl w e) as [w1|] eqn:E; [|discriminate].
    intros _ _. exact (step_running w w1 e E).
Qed.

Lemma connect_resolved_fields (w : world) :
  sessionId (connect_resolved w) = sessionId w
  /\ sse (connect_resolved w) = sse w
  /\ buffer (connect_resolved w) = buffer w
  /\ currentEvent (connect_resolved w) = currentEvent w
  /\ trace (connect_resolved w) = trace w.
Proof. unfold connect_resolved. destruct (lifecycle w); repeat split. Qed.

Lemma connect_rejected_fields (w : world) (m : jsstring) :
  sessionId (connect_rejected w m) = sessionId w
  /\ sse (connect_rejected w m) = sse w.
Proof. unfold connect_rejected. destruct (lifecycle w); repeat split. Qed.

Lemma on_stdin_line_fields (w : world) (line : jsstring) :
  sessionId (on_stdin_line sseUrl w line) = sessionId w
  /\ sse (on_stdin_line sseUrl w line) = sse w
  /\ buffer (on_stdin_line sseUrl w line) = buffer w
  /\ currentEvent (on_stdin_line sseUrl w line) = currentEvent w
  /\ trace (on_stdin_line sseUrl w line)
     = trace w ++ fst (on_line sseUrl (sessionId w) line).
Proof.
  unfold on_stdin_line.
  destruct (on_line sseUrl (sessionId w) line) as [effs [p|]]; repeat split.
Qed.

(** Only the events of the SSE stream touch the session id and the state
    of the ['data'] handler. *)
Lemma step_local (w w' : world) (e : event) :
  is_sse_event e = false ->
  step sseUrl w e = Some w' ->
  sessionId w' = sessionId w /\ sse w' = sse w
  /\ buffer w' = buffer w /\ currentEvent w' = currentEvent w.
Proof.
  intros He. unfold step.
  destruct (lifecycle w) eqn:El; try discriminate;
    destruct e; try discriminate He; cbn [is_sse_event] in He;
    try (intros H; inversion H; subst;
         first [ apply on_stdin_line_fields | repeat split ]; fail);
    try (destruct (find_pending id (pending w)) as [s|]; [|discriminate];
         destruct (s_await s); try discriminate;
         intros H; inversion H; repeat split).
  - intros H; inversion H; subst.
    destruct (on_stdin_line_fields w line) as (? & ? & ? & ? & _).
    repeat split; assumption.
Qed.

Lemma sse_text_snoc (events : list event) (e : event) :
  sse_text (events ++ [e])
  = sse_text events ++ match e with
                       | SseData chunk => Buffer_toString chunk
                       | _ => []
                       end.
Proof.
  unfold sse_text. rewrite flat_map_app. cbn [flat_map].
  rewrite app_nil_r. reflexivity.
Qed.

(** A chunk that is handled without a throw moves the handler from the
    state for [text] to the state for [text] followed by the chunk. *)
Lemma parser_tracks_data (w : world) (text : jsstring)
    (chunk : list Byte.byte) :
  parser_tracks sseUrl w text ->
  running (on_sse_data sseUrl w chunk) ->
  parser_tracks sseUrl (on_sse_data sseUrl w chunk)
                (text ++ Buffer_toString chunk).
Proof.
  intros [Hbuf [effs0 Hloop]] Hrun.
  unfold on_sse_data, on_data, on_text in *.
  unfold parser_tracks, complete_lines, split_lf in *.
  rewrite (split_app 10%N text (Buffer_toString chunk)), <- Hbuf.
  set (tail := split 10%N (buffer w ++ Buffer_toString chunk)) in *.
  assert (Hne : tail <> []) by apply split_not_nil.
  rewrite (last_app_nonempty _ _ _ Hne), (removelast_app _ Hne).
  rewrite for_lines_app, Hloop.
  destruct (for_lines sseUrl (currentEvent w) (sessionId w)
              (removelast tail)) as [effs [[ev' sid']|m]].
  - destruct (existsb is_resolve effs).
    + destruct (connect_resolved_fields
                  {| sessionId := sid'; sseConnection := sseConnection w;
                     sse := sse w; buffer := last tail [];
                     currentEvent := ev'; lifecycle := lifecycle w;
                     pending := pending w; next_id := next_id w;
                     trace := trace w ++ effs |})
        as (-> & _ & -> & -> & _).
      cbn. split; [reflexivity | eexists; reflexivity].
    + cbn. split; [reflexivity | eexists; reflexivity].
  - exfalso. destruct Hrun as [H|H]; cbn in H; discriminate H.
Qed.

Lemma sse_on_sse_data (w : world) (chunk : list Byte.byte) :
  sse (on_sse_data sseUrl w chunk) = sse w.
Proof.
  unfold on_sse_data.
  destruct (on_data sseUrl (buffer w) (currentEvent w) (sessionId w) chunk)
    as [b [effs [[ev' sid']|m]]]; [|reflexivity].
  destruct (existsb is_resolve effs); [|reflexivity].
  match goal with
  | |- sse (connect_resolved ?x) = _ =>
      destruct (connect_resolved_fields x) as (_ & -> & _)
  end.
  reflexivity.
Qed.

Lemma consistent_step (w w' : world) (events : list event) (e : event) :
  consistent sseUrl w events ->
  step sseUrl w e = Some w' ->
  running w' ->
  consistent sseUrl w' (events ++ [e]).
Proof.
  intros Hc Hstep Hrun.
  destruct (is_sse_event e) eqn:He.
  - unfold consistent in *. rewrite sse_text_snoc.
    unfold step in Hstep.
    destruct (lifecycle w) eqn:El; [ | |discriminate Hstep].
    all: destruct e as [status|chunk| |message|line|id|id status data|id message| |s];
      try discriminate He.
    all: destruct (sse w) eqn:Es; try discriminate Hstep;
      injection Hstep as <-.
    all: try (rewrite sse_on_sse_data, Es;
              apply parser_tracks_data; assumption).
    all: try (unfold on_sse_error;
              destruct (connect_rejected_fields
                          (invalidate
                             (set_trace w [Stderr [lit "SSE connection error:";
                                                   message]])) message)
                as [-> ->]; reflexivity).
    all: try reflexivity.
    all: unfold on_sse_response; destruct (status =? 200)%N.
    all: try (destruct Hc as [Hs Ht]; rewrite Ht; cbn;
              split; [reflexivity | eexists; cbn; rewrite Hs; reflexivity]).
    all: match goal with
         | |- context [connect_rejected ?x ?m] =>
             destruct (connect_rejected_fields x m) as [-> ->]
         end; cbn; apply Hc.
  - destruct (step_local w w' e He Hstep) as (Hs & Hsse & Hb & Hev).
    unfold consistent in *. rewrite sse_text_snoc.
    assert (Ht : match e with
                 | SseData chunk => Buffer_toString chunk
                 | _ => []
                 end = []) by (destruct e; try reflexivity; discriminate He).
    rewrite Ht, app_nil_r, Hsse.
    destruct (sse w); unfold parser_tracks in *; rewrite ?Hs, ?Hb, ?Hev;
      exact Hc.
Qed.


Lemma consistent_run (events : list event) :
  forall (w w' : world) (before : list event),
    consistent sseUrl w before ->
    run sseUrl w events = Some w' ->
    running w' ->
    consistent sseUrl w' (before ++ events).
Proof.
  induction events as [|e events IH]; intros w w' before Hc Hrun Hlive.
  - cbn in Hrun. inversion Hrun; subst. rewrite app_nil_r. exact Hc.
  - cbn [run] in Hrun.
    destruct (step sseUrl w e) as [w1|] eqn:E; [|discriminate Hrun].
    change (e :: events) with ([e] ++ events). rewrite app_assoc.
    apply (IH w1 w' (before ++ [e])); [|exact Hrun|exact Hlive].
    apply (consistent_step w w1 before e Hc E).
    exact (run_running events w1 w' Hrun Hlive).
Qed.

(** C10. In every run from the start of the proxy, while the process is
    running: once the stream is open the session id is the [sessionId]
    parameter of the last [endpoint] frame the stream has delivered (the
    initial [null] if there was none), whatever ids came before; before
    the stream opens and after its end or an error it is [null]; and the
    events that are not events of the SSE stream leave it alone. *)
Theorem session_id_is_last_endpoint_parameter
    (SSE_URL clientSessionId : jsstring) (events : list event) (w : world) :
  run sseUrl (initialize sseUrl SSE_URL clientSessionId) events = Some w ->
  running w ->
  sessionId w
  = match sse w with
    | SseOpen =>
        last_endpoint sseUrl None
          (frames None (complete_lines (sse_text events)))
    | _ => None
    end
  /\ (forall w0, sessionId (on_sse_end w0) = None
                 /\ sse (on_sse_end w0) = SseClosed)
  /\ (forall w0 m, sessionId (on_sse_error w0 m) = None
                   /\ sse (on_sse_error w0 m) = SseClosed)
  /\ (forall w0 w1 e, is_sse_event e = false ->
                      step sseUrl w0 e = Some w1 ->
                      sessionId w1 = sessionId w0).
Proof.
  intros Hrun Hlive. split; [|split; [|split]].
  - assert (Hc : consistent sseUrl w ([] ++ events)).
    { apply (consistent_run events (initialize sseUrl SSE_URL clientSessionId) w
               []); [|exact Hrun|exact Hlive].
      cbn. split; reflexivity. }
    cbn [app] in Hc. unfold consistent in Hc.
    destruct (sse w).
    + apply Hc.
    + destruct Hc as [_ [effs Hloop]].
      exact (for_lines_session sseUrl _ _ _ _ _ _ Hloop).
    + exact Hc.
  - intros w0. split; reflexivity.
  - intros w0 m. unfold on_sse_error.
    destruct (connect_rejected_fields
                (invalidate
                   (set_trace w0 [Stderr [lit "SSE connection error:"; m]])) m)
      as [-> ->].
    split; reflexivity.
  - intros w0 w1 e He Hs. apply (step_local w0 w1 e He Hs).
Qed.

End Session.

(** ** An endpoint event without a session id *)

Section BareEndpoint.

Context {R : Runtime}.
Variable sseUrl : url.







End BareEndpoint.


Lemma session_id_is_last_endpoint_parameter_witness :
  running Sample.connected
  /\ sessionId Sample.connected
     = last_endpoint (R := Node.runtime) Sample.sseUrl None
         (frames None
            (complete_lines
               (sse_text (R := Node.runtime)
                  [SseResponse 200; SseData Sample.endpoint_chunk]))).
Proof.
  split; [right; reflexivity|].
  apply (session_id_is_last_endpoint_parameter (R := Node.runtime)
           Sample.sseUrl Sample.SSE_URL Sample.clientSessionId
           [SseResponse 200; SseData Sample.endpoint_chunk] Sample.connected).
  - reflexivity.
  - right; reflexivity.
Defined.

(** C4 fails on the code.  The bytes of
    [event: message\ndata: {"jsonrpc":"2.0","id":1,"result":"é"}\n\n] are
    valid SSE framing.  Delivered in one chunk they are the frame whose
    payload has the letter [é], relayed as such; delivered in two chunks
    cut between the two bytes of that letter, each chunk is decoded on its
    own by [chunk.toString()] and the frame and the relayed line have two
    U+FFFD in its place. *)
Theorem split_inside_character_changes_frame :
  Sample.accent_head ++ Sample.accent_tail = Sample.accent_chunk
  /\ frames None
       (complete_lines
          (sse_text (R := Node.runtime) [SseData Sample.accent_chunk]))
     = [(Some (lit "message"), Sample.accent_line [233%N])]
  /\ frames None
       (complete_lines
          (sse_text (R := Node.runtime)
             [SseData Sample.accent_head; SseData Sample.accent_tail]))
     = [(Some (lit "message"), Sample.accent_line [65533%N; 65533%N])]
  /\ option_map (fun w => stdout_lines (trace w))
       (run (R := Node.runtime) Sample.sseUrl Sample.opened
            [SseData Sample.accent_chunk])
     = Some [Sample.accent_line [233%N] ++ LF]
  /\ option_map (fun w => stdout_lines (trace w))
       (run (R := Node.runtime) Sample.sseUrl Sample.opened
            [SseData Sample.accent_head; SseData Sample.accent_tail])
     = Some [Sample.accent_line [65533%N; 65533%N] ++ LF].
Proof. repeat split; vm_compute; reflexivity. Qed.

(** * Further properties of the code *)

(** ** White space *)

Lemma trimStart_blank (s : jsstring) : blank s = true -> trimStart s = [].
Proof.
  induction s as [|c s IH]; [reflexivity|].
  cbn [blank forallb trimStart]. intros H. apply andb_true_iff in H.
  destruct H as [Hc Hs]. rewrite Hc. exact (IH Hs).
Qed.

Lemma trimStart_nil_blank (s : jsstring) : trimStart s = [] -> blank s = true.
Proof.
  induction s as [|c s IH]; [reflexivity|].
  cbn [blank forallb trimStart]. destruct (is_space c); [|discriminate].
  exact IH.
Qed.

Lemma trimStart_app_blank (pad s : jsstring) :
  blank pad = true -> trimStart (pad ++ s) = trimStart s.
Proof.
  induction pad as [|c pad IH]; [reflexivity|].
  cbn [blank forallb app trimStart]. intros H. apply andb_true_iff in H.
  destruct H as [Hc Hs]. rewrite Hc. exact (IH Hs).
Qed.

(** [trimStart] removes a blank prefix and nothing else. *)
Lemma trimStart_prefix (s : jsstring) :
  exists pad, blank pad = true /\ s = pad ++ trimStart s.
Proof.
  induction s as [|c s [pad [Hp Hs]]].
  - exists []. split; reflexivity.
  - cbn [trimStart]. destruct (is_space c) eqn:Ec.
    + exists (c :: pad). cbn [blank forallb]. rewrite Ec. split; [exact Hp|].
      cbn [app]. rewrite <- Hs. reflexivity.
    + exists []. split; reflexivity.
Qed.

Lemma blank_app (a b : jsstring) : blank (a ++ b) = blank a && blank b.
Proof. apply forallb_app. Qed.

Lemma blank_rev (s : jsstring) : blank (rev s) = blank s.
Proof.
  induction s as [|c s IH]; [reflexivity|].
  cbn [rev]. rewrite blank_app, IH. cbn [blank forallb].
  rewrite andb_true_r. apply andb_comm.
Qed.


Lemma trim_nil_blank (s : jsstring) : trim s = [] -> blank s = true.
Proof.
  unfold trim, trimEnd. intros H.
  destruct (trimStart_prefix s) as [pad [Hp Hs]].
  assert (Hr : trimStart (rev (trimStart s)) = []).
  { rewrite <- (rev_involutive (trimStart (rev (trimStart s)))), H.
    reflexivity. }
  apply trimStart_nil_blank in Hr. rewrite blank_rev in Hr.
  rewrite Hs, blank_app, Hp, Hr. reflexivity.
Qed.

(** [trim] strips exactly the white space around a text that neither
    starts nor ends with white space. *)
Lemma trim_padded (pad1 t pad2 : jsstring) :
  blank pad1 = true -> blank pad2 = true -> trimmed t = true ->
  trim (pad1 ++ t ++ pad2) = t.
Proof.
  intros H1 H2 Ht. unfold trim, trimEnd.
  rewrite (trimStart_app_blank pad1 _ H1).
  destruct t as [|c t].
  - cbn [app]. rewrite (trimStart_blank pad2 H2). reflexivity.
  - cbn [trimmed] in Ht. apply andb_true_iff in Ht. destruct Ht as [Hc Hl].
    apply negb_true_iff in Hc. apply negb_true_iff in Hl.
    cbn [app trimStart]. rewrite Hc.
    change (c :: t ++ pad2) with ((c :: t) ++ pad2).
    rewrite rev_app_distr, trimStart_app_blank
      by (rewrite blank_rev; exact H2).
    assert (Hne : c :: t <> []) by discriminate.
    rewrite (app_removelast_last c Hne) at 1.
    rewrite rev_app_distr. cbn [rev app trimStart]. rewrite Hl.
    change (last (c :: t) c :: rev (removelast (c :: t)))
      with (rev [last (c :: t) c] ++ rev (removelast (c :: t))).
    rewrite <- rev_app_distr, rev_involutive.
    symmetry. exact (app_removelast_last c Hne).
Qed.

Section Blank.

Context {R : Runtime}.
Variable sseUrl : url.



(** X2. The event type is what follows [event: ] with the white space
    around it removed; when nothing is left, the data lines that follow
    are handled as they are with no event type at all, that is as
    messages. *)
Theorem event_type_is_trimmed (currentEvent sessionId : nullable)
    (pad1 t pad2 data : jsstring) :
  blank pad1 = true -> blank pad2 = true -> trimmed t = true ->
  on_sse_line sseUrl currentEvent sessionId (lit "event: " ++ pad1 ++ t ++ pad2)
  = ([], Normal (Some t, sessionId))
  /\ on_data_line sseUrl (Some []) sessionId data
     = on_data_line sseUrl None sessionId data.
Proof.
  intros H1 H2 Ht. split; [|reflexivity].
  unfold on_sse_line.
  change (startsWith (lit "event: " ++ pad1 ++ t ++ pad2) (lit "event: "))
    with true.
  change (slice 7 (lit "event: " ++ pad1 ++ t ++ pad2))
    with (pad1 ++ t ++ pad2).
  rewrite (trim_padded pad1 t pad2 H1 H2 Ht). reflexivity.
Qed.

(** X3. A chunk that brings no line feed is only added to the buffer: as
    long as the line is unfinished nothing is parsed, written or changed,
    whatever the text is. *)
Theorem unfinished_line_is_buffered (w : world) (chunk : list Byte.byte) :
  ~ In 10%N (buffer w) ->
  ~ In 10%N (Buffer_toString chunk) ->
  on_sse_data sseUrl w chunk
  = {| sessionId := sessionId w; sseConnection := sseConnection w;
       sse := sse w; buffer := buffer w ++ Buffer_toString chunk;
       currentEvent := currentEvent w; lifecycle := lifecycle w;
       pending := pending w; next_id := next_id w; trace := trace w |}.
Proof.
  intros Hb Hc. unfold on_sse_data, on_data, on_text, split_lf.
  rewrite split_no_sep.
  - cbn. rewrite app_nil_r. reflexivity.
  - intros Hin. apply in_app_or in Hin. tauto.
Qed.

End Blank.


Lemma event_type_is_trimmed_witness :
  on_sse_line (R := Node.runtime) Sample.sseUrl None None
    (lit "event: " ++ lit " " ++ lit "message" ++ [13%N])
  = ([], Normal (Some (lit "message"), None)).
Proof.
  apply (proj1 (event_type_is_trimmed (R := Node.runtime) Sample.sseUrl
                  None None (lit " ") (lit "message") [13%N] []
                  eq_refl eq_refl eq_refl)).
Defined.

Lemma unfinished_line_is_buffered_witness :
  on_sse_data (R := Node.runtime) Sample.sseUrl Sample.opened
              (Sample.bytes "data: {")
  = {| sessionId := None; sseConnection := true; sse := SseOpen;
       buffer := lit "data: {"; currentEvent := None;
       lifecycle := Connecting; pending := []; next_id := 0;
       trace := trace Sample.opened |}.
Proof.
  apply (unfinished_line_is_buffered (R := Node.runtime) Sample.sseUrl
           Sample.opened (Sample.bytes "data: {")).
  - simpl; tauto.
  - vm_compute. intuition discriminate.
Defined.

(** ** What the proxy writes and sends *)

Section Emitted.

Context {R : Runtime}.
Variable sseUrl : url.

Lemma emitted_on_data_line (ev sid : nullable) (data : jsstring) :
  Forall (emitted sseUrl) (fst (on_data_line sseUrl ev sid data))
  /\ requests (fst (on_data_line sseUrl ev sid data)) = [].
Proof.
  unfold on_data_line.
  destruct (is_str ev (lit "endpoint")).
  - destruct (URL_searchParams_get data (endpoint_base sseUrl)
                (lit "sessionId")); cbn; split;
      repeat constructor.
  - destruct (is_str ev (lit "message") || falsy ev);
      [|cbn; split; constructor].
    destruct (streq data (lit "[DONE]")); [cbn; split; constructor|].
    destruct (JSON_parse data); cbn; split; repeat constructor.
Qed.

Lemma emitted_on_sse_line (ev sid : nullable) (line : jsstring) :
  Forall (emitted sseUrl) (fst (on_sse_line sseUrl ev sid line))
  /\ requests (fst (on_sse_line sseUrl ev sid line)) = [].
Proof.
  unfold on_sse_line.
  destruct (startsWith line (lit "event: ")); [cbn; split; constructor|].
  destruct (startsWith line (lit "data: ")); [apply emitted_on_data_line|].
  destruct (streq line []); cbn; split; constructor.
Qed.

(** The loop writes log entries and relayed messages and resolves the
    connection promise; it sends nothing. *)
Lemma emitted_for_lines (lines : list jsstring) :
  forall ev sid,
    Forall (emitted sseUrl) (fst (for_lines sseUrl ev sid lines))
    /\ requests (fst (for_lines sseUrl ev sid lines)) = [].
Proof.
  induction lines as [|line lines IH]; intros ev sid.
  - cbn. split; constructor.
  - cbn [for_lines].
    destruct (emitted_on_sse_line ev sid line) as [H1 H2].
    destruct (on_sse_line sseUrl ev sid line) as [effs [[ev' sid']|m]];
      cbn [fst] in *; [|split; assumption].
    destruct (IH ev' sid') as [H3 H4].
    destruct (for_lines sseUrl ev' sid' lines) as [effs' c]. cbn [fst] in *.
    split; [apply Forall_app; split; assumption|].
    rewrite requests_app, H2, H4. reflexivity.
Qed.

Lemma emitted_catch_block (line m : jsstring) :
  Forall (emitted sseUrl) (catch_block line m).
Proof.
  unfold catch_block. destruct (JSON_parse line) as [v|];
    [|repeat constructor].
  destruct (get_id v); repeat constructor.
Qed.

(** With a session id that is not empty [sendMessage] makes the POST of
    [post_request]. *)
Lemma sendMessage_posts (c : char16) (sid : jsstring) (message : json) :
  sendMessage sseUrl (Some (c :: sid)) message
  = ([HttpRequest
        (fst (post_request sseUrl (c :: sid) (JSON_stringify message)))
        (snd (post_request sseUrl (c :: sid) (JSON_stringify message)))],
     AwaitingResponse).
Proof. reflexivity. Qed.

Lemma emitted_on_line (sid : nullable) (line : jsstring) :
  Forall (emitted sseUrl) (fst (on_line sseUrl sid line)).
Proof.
  unfold on_line. destruct (trim line); [constructor|].
  destruct (JSON_parse line) as [message|m]; [|apply emitted_catch_block].
  destruct sid as [[|c0 sid0]|].
  - cbn. constructor.
  - cbn. constructor; [|constructor].
    apply (emitted_post sseUrl (c0 :: sid0) message). discriminate.
  - cbn. constructor.
Qed.

Lemma emitted_on_line_resume (line : jsstring) (r : completion unit) :
  Forall (emitted sseUrl) (on_line_resume line r).
Proof. destruct r; [constructor | apply emitted_catch_block]. Qed.

Lemma trace_connect_rejected (w : world) (m : jsstring) :
  exists effs,
    trace (connect_rejected w m) = trace w ++ effs
    /\ Forall (emitted sseUrl) effs /\ requests effs = [].
Proof.
  unfold connect_rejected. destruct (lifecycle w).
  - exists [ConnectReject m; Stderr [lit "Failed to initialize:"; m]; Exit 1].
    unfold exit. cbn [set_lifecycle set_trace trace].
    rewrite <- app_assoc. repeat split; repeat constructor.
  - exists [ConnectReject m]. repeat split; repeat constructor.
  - exists [ConnectReject m]. repeat split; repeat constructor.
Qed.

(** Every step appends to the trace, and what it appends is [emitted]. *)
Lemma step_emits (w w' : world) (e : event) :
  step sseUrl w e = Some w' ->
  exists effs, trace w' = trace w ++ effs /\ Forall (emitted sseUrl) effs.
Proof.
  unfold step.
  destruct (lifecycle w) eqn:El; try discriminate;
    destruct e; try discriminate;
    try (destruct (sse w) eqn:Es; try discriminate);
    try (destruct (find_pending id (pending w)) as [s|]; [|discriminate];
         destruct (s_await s); try discriminate);
    intros H; inversion H; subst; clear H.
  all: try (unfold on_sse_response; destruct (statusCode =? 200)%N;
            [ eexists; split; [reflexivity | repeat constructor]
            | match goal with
              | |- context [connect_rejected ?x ?m] =>
                  destruct (trace_connect_rejected x m) as (effs & -> & Hf & _)
              end; exists effs; split; [reflexivity | exact Hf] ]).
  all: try (unfold on_sse_data, on_data;
            match goal with
            | |- context [on_text ?u ?b ?ev ?sid ?t] =>
                pose proof (emitted_for_lines
                              (removelast (split_lf (b ++ t))) ev sid) as [Hf _];
                unfold on_text;
                destruct (for_lines u ev sid (removelast (split_lf (b ++ t))))
                  as [effs [[ev' sid']|m]]
            end; cbn [fst] in Hf;
            [ exists effs; split; [|exact Hf];
              destruct (existsb is_resolve effs); [|reflexivity];
              match goal with
              | |- trace (connect_resolved ?x) = _ =>
                  destruct (connect_resolved_fields x) as (_ & _ & _ & _ & ->)
              end; reflexivity
            | exists (effs ++ [Exit 1]); split;
              [ unfold exit; cbn [set_lifecycle set_trace trace];
                rewrite <- app_assoc; reflexivity
              | apply Forall_app; split; [exact Hf | repeat constructor] ] ]).
  all: try (exists [Stderr [lit "SSE connection closed"]]; split;
            [reflexivity | repeat constructor]).
  all: try (unfold on_sse_error;
            match goal with
            | |- context [connect_rejected ?x ?m] =>
                destruct (trace_connect_rejected x m) as (effs & -> & Hf & _)
            end;
            exists (Stderr [lit "SSE connection error:"; message] :: effs);
            split; [cbn; rewrite <- app_assoc; reflexivity
                   | constructor; [constructor | exact Hf]]).
  all: try (destruct (on_stdin_line_fields sseUrl w line)
              as (_ & _ & _ & _ & ->);
            eexists; split; [reflexivity | apply emitted_on_line]).
  all: try (eexists; split; [reflexivity | apply emitted_on_line_resume]).
  all: unfold shutdown, exit; cbn [set_lifecycle set_trace trace];
    rewrite <- app_assoc; eexists; split; [reflexivity | repeat constructor].
Qed.

Lemma run_emits (events : list event) :
  forall w w',
    run sseUrl w events = Some w' ->
    exists effs, trace w' = trace w ++ effs /\ Forall (emitted sseUrl) effs.
Proof.
  induction events as [|e events IH]; intros w w' Hrun.
  - cbn in Hrun. inversion Hrun; subst. exists [].
    rewrite app_nil_r. split; constructor.
  - cbn [run] in Hrun.
    destruct (step sseUrl w e) as [w1|] eqn:E; [|discriminate Hrun].
    destruct (step_emits w w1 e E) as (effs1 & Ht1 & Hf1).
    destruct (IH w1 w' Hrun) as (effs2 & Ht2 & Hf2).
    exists (effs1 ++ effs2). rewrite Ht2, Ht1, <- app_assoc.
    split; [reflexivity | apply Forall_app; split; assumption].
Qed.

Lemma stdout_emitted (effs : list effect) :
  Forall (emitted sseUrl) effs ->
  Forall (fun text => exists v, text = JSON_stringify v ++ LF)
         (stdout_lines effs).
Proof.
  induction 1 as [|e effs He _ IH]; [constructor|].
  destruct He; cbn; try exact IH.
  constructor; [exists v; reflexivity | exact IH].
Qed.

Lemma requests_emitted (effs : list effect) :
  Forall (emitted sseUrl) effs -> Forall (is_post sseUrl) (requests effs).
Proof.
  induction 1 as [|e effs He _ IH]; [constructor|].
  destruct He; cbn; try exact IH.
  constructor; [|exact IH]. exists sid, message. split; [assumption|reflexivity].
Qed.

(** X4. Standard output carries protocol lines only.  In every run from
    the start of the proxy, each text written to standard output is the
    serialization of one JSON value followed by a line feed; the log
    entries of the proxy never go there. *)
Theorem stdout_is_protocol_only
    (SSE_URL clientSessionId : jsstring) (events : list event) (w : world) :
  run sseUrl (initialize sseUrl SSE_URL clientSessionId) events = Some w ->
  Forall (fun text => exists v, text = JSON_stringify v ++ LF)
         (stdout_lines (trace w)).
Proof.
  intros Hrun. destruct (run_emits events _ w Hrun) as (effs & -> & Hf).
  rewrite stdout_lines_app. apply Forall_app. split.
  - cbn. constructor.
  - apply stdout_emitted. exact Hf.
Qed.

(** While [initialize] awaits the connection no line has been read: no
    handler is suspended and nothing was sent but the GET. *)
Lemma connecting_step (w w' : world) (e : event) (gets : list (request * option jsstring)) :
  step sseUrl w e = Some w' ->
  (lifecycle w = Connecting -> pending w = [] /\ requests (trace w) = gets) ->
  lifecycle w' = Connecting ->
  pending w' = [] /\ requests (trace w') = gets.
Proof.
  intros Hstep Hinv Hc'. unfold step in Hstep.
  destruct (lifecycle w) eqn:El; try discriminate Hstep.
  - destruct (Hinv eq_refl) as [Hp Hr].
    destruct e; try discriminate Hstep;
      try (rewrite Hp in Hstep; discriminate Hstep);
      try (destruct (sse w) eqn:Es; try discriminate Hstep);
      injection Hstep as <-.
    all: try (cbn in Hc'; discriminate Hc').
    all: try (unfold on_sse_error, connect_rejected in Hc'; cbn in Hc';
              rewrite El in Hc'; discriminate Hc').
    all: try (cbn in *; rewrite requests_app, Hr; cbn; rewrite app_nil_r;
              split; [exact Hp|reflexivity]).
    + unfold on_sse_response in *. destruct (statusCode =? 200)%N.
      * cbn in *. rewrite requests_app, Hr. cbn. rewrite app_nil_r.
        split; [exact Hp|reflexivity].
      * unfold connect_rejected in Hc'. cbn in Hc'. rewrite El in Hc'.
        discriminate Hc'.
    + unfold on_sse_data, on_data, on_text in *.
      match goal with
      | |- context [for_lines ?u ?ev ?sid ?l] =>
          pose proof (emitted_for_lines l ev sid) as [_ Hq];
          destruct (for_lines u ev sid l) as [effs [[ev' sid']|m]]
      end; cbn [fst] in Hq; [|discriminate Hc'].
      destruct (existsb is_resolve effs).
      * unfold connect_resolved in Hc'. cbn in Hc'. rewrite El in Hc'.
        discriminate Hc'.
      * cbn in *. rewrite requests_app, Hr, Hq, app_nil_r.
        split; [exact Hp|reflexivity].
  - exfalso.
    destruct e; try discriminate Hstep;
      try (destruct (sse w) eqn:Es; try discriminate Hstep);
      try (destruct (find_pending id (pending w)) as [s|];
           [|discriminate Hstep];
           destruct (s_await s); try discriminate Hstep);
      injection Hstep as <-;
      try (cbn in Hc'; congruence).
    all: try (unfold on_sse_response, connect_rejected in Hc';
              destruct (statusCode =? 200)%N; cbn in Hc';
              rewrite ?El in Hc'; cbn in Hc'; congruence).
    all: try (unfold on_sse_data in Hc';
              destruct (on_data sseUrl (buffer w) (currentEvent w)
                          (sessionId w) chunk) as [b [effs [[ev' sid']|m]]];
              [destruct (existsb is_resolve effs);
               unfold connect_resolved in Hc'; cbn in Hc';
               rewrite ?El in Hc'; cbn in Hc'; congruence
              | cbn in Hc'; discriminate Hc']).
    all: try (unfold on_sse_error, connect_rejected in Hc'; cbn in Hc';
              rewrite El in Hc'; cbn in Hc'; congruence).
    all: unfold on_stdin_line in Hc';
      destruct (on_line sseUrl (sessionId w) line) as [effs [p|]];
      cbn in Hc'; congruence.
Qed.

Lemma connecting_run (events : list event) (gets : list (request * option jsstring)) :
  forall w w',
    run sseUrl w events = Some w' ->
    (lifecycle w = Connecting -> pending w = [] /\ requests (trace w) = gets) ->
    lifecycle w' = Connecting ->
    pending w' = [] /\ requests (trace w') = gets.
Proof.
  induction events as [|e events IH]; intros w w' Hrun Hinv Hc'.
  - cbn in Hrun. inversion Hrun; subst. exact (Hinv Hc').
  - cbn [run] in Hrun.
    destruct (step sseUrl w e) as [w1|] eqn:E; [|discriminate Hrun].
    apply (IH w1 w' Hrun); [|exact Hc'].
    intros Hc1. exact (connecting_step w w1 e gets E Hinv Hc1).
Qed.

(** X5. The proxy connects once and then only posts.  In every run from
    the start, the requests made are the one GET of [connectSSEStream]
    followed by POSTs, each to the configured host, port and path with a
    session id that is not empty, the serialized message as body and its
    byte length as Content-Length; no second GET is ever made, so a lost
    session is never re-established.  As long as the connection promise
    is pending nothing has been posted and no line has been taken up. *)
Theorem requests_are_one_get_then_posts
    (SSE_URL clientSessionId : jsstring) (events : list event) (w : world) :
  run sseUrl (initialize sseUrl SSE_URL clientSessionId) events = Some w ->
  exists posts,
    requests (trace w)
    = (connect_options sseUrl clientSessionId, None) :: posts
    /\ Forall (is_post sseUrl) posts
    /\ (lifecycle w = Connecting -> posts = [] /\ pending w = []).
Proof.
  intros Hrun. destruct (run_emits events _ w Hrun) as (effs & Ht & Hf).
  exists (requests effs). split; [|split].
  - rewrite Ht, requests_app. reflexivity.
  - apply requests_emitted. exact Hf.
  - intros Hc.
    destruct (connecting_run events
                [(connect_options sseUrl clientSessionId, None)] _ w Hrun)
      as [Hp Hr]; [intros _; split; reflexivity | exact Hc |].
    split; [|exact Hp].
    rewrite Ht, requests_app in Hr. cbn in Hr. injection Hr as Hr. exact Hr.
Qed.

End Emitted.

Lemma stdout_is_protocol_only_witness :
  Forall (fun text => exists v,
            text = JSON_stringify (Runtime := Node.runtime) v ++ LF)
         (stdout_lines (trace Sample.connected)).
Proof.
  apply (stdout_is_protocol_only (R := Node.runtime) Sample.sseUrl
           Sample.SSE_URL Sample.clientSessionId
           [SseResponse 200; SseData Sample.endpoint_chunk]).
  reflexivity.
Defined.

Lemma requests_are_one_get_then_posts_witness :
  exists posts,
    requests (trace Sample.connected)
    = (connect_options Sample.sseUrl Sample.clientSessionId, None) :: posts
    /\ Forall (is_post (R := Node.runtime) Sample.sseUrl) posts.
Proof.
  destruct (requests_are_one_get_then_posts (R := Node.runtime) Sample.sseUrl
              Sample.SSE_URL Sample.clientSessionId
              [SseResponse 200; SseData Sample.endpoint_chunk]
              Sample.connected eq_refl)
    as (posts & Hr & Hp & _).
  exists posts. split; [exact Hr | exact Hp].
Defined.

(** ** The stream as a whole *)

Section WholeStream.

Context {R : Runtime}.
Variable sseUrl : url.



Lemma agree_refl (a : world) : agree a a.
Proof. unfold agree. repeat split. Qed.

Lemma agree_sym (a b : world) : agree a b -> agree b a.
Proof.
  unfold agree, running.
  intros (Ht & Hl & Hb & Hp & Hn & Hs & Hc & Hr).
  split; [congruence|]. split; [congruence|]. split; [congruence|].
  split; [congruence|]. split; [congruence|]. split; [congruence|].
  split; [congruence|].
  intros Hrun. rewrite <- Hl in Hrun. destruct (Hr Hrun).
  split; congruence.
Qed.

Lemma agree_trans (a b c : world) : agree a b -> agree b c -> agree a c.
Proof.
  unfold agree, running.
  intros (Ht & Hl & Hb & Hp & Hn & Hs & Hc & Hr)
         (Ht' & Hl' & Hb' & Hp' & Hn' & Hs' & Hc' & Hr').
  split; [congruence|]. split; [congruence|]. split; [congruence|].
  split; [congruence|]. split; [congruence|]. split; [congruence|].
  split; [congruence|].
  intros Hrun. destruct (Hr Hrun). rewrite Hl in Hrun.
  destruct (Hr' Hrun). split; congruence.
Qed.

(** Worlds that agree and are running are the same. *)
Lemma agree_running (a b : world) : agree a b -> running a -> a = b.
Proof.
  intros (Ht & Hl & Hb & Hp & Hn & Hs & Hc & Hr) Hrun.
  destruct (Hr Hrun) as [Hsid Hev].
  destruct a, b. cbn in *. subst. reflexivity.
Qed.

Lemma on_sse_text_nil (w : world) :
  ~ In 10%N (buffer w) -> on_sse_text sseUrl w [] = w.
Proof.
  intros Hb. unfold on_sse_text, on_text, split_lf.
  rewrite app_nil_r, (split_no_sep _ _ Hb). cbn.
  destruct w. cbn. rewrite app_nil_r. reflexivity.
Qed.

(** Handling [t1] and then [t2] is handling [t1 ++ t2]. *)
Lemma on_sse_text_app (w : world) (t1 t2 : jsstring) :
  running (on_sse_text sseUrl w t1) ->
  agree (on_sse_text sseUrl (on_sse_text sseUrl w t1) t2)
        (on_sse_text sseUrl w (t1 ++ t2)).
Proof.
  unfold on_sse_text at 1 3 4. rewrite on_text_app.
  destruct (on_text sseUrl (buffer w) (currentEvent w) (sessionId w) t1)
    as [b1 [e1 [[ev1 sid1]|m1]]].
  - intros Hrun. destruct w as [sid sc ss buf ev lc pend nid tr].
    cbn [sessionId sseConnection sse buffer currentEvent lifecycle pending
         next_id trace] in *.
    unfold on_sse_text.
    destruct (existsb is_resolve e1) eqn:Ex1;
      destruct lc;
      try (exfalso; destruct Hrun as [H|H]; cbn in H; discriminate H);
      cbn [connect_resolved sessionId sseConnection sse buffer currentEvent
           lifecycle pending next_id trace set_lifecycle];
      destruct (on_text sseUrl b1 ev1 sid1 t2) as [b2 [e2 [[ev2 sid2]|m2]]];
      rewrite ?existsb_app, ?Ex1; cbn [orb];
      try destruct (existsb is_resolve e2);
      unfold agree, running, exit;
      cbn [connect_resolved sessionId sseConnection sse buffer currentEvent
           lifecycle pending next_id trace set_lifecycle set_trace];
      rewrite <- ?app_assoc; repeat split;
      try match goal with
          | H : Exited _ = _ \/ Exited _ = _ |- _ =>
              destruct H as [H|H]; discriminate H
          end.
  - intros Hrun. exfalso. destruct Hrun as [H|H]; cbn in H; discriminate H.
Qed.

Lemma buffer_on_sse_text (w : world) (t : jsstring) :
  running (on_sse_text sseUrl w t) ->
  ~ In 10%N (buffer (on_sse_text sseUrl w t)).
Proof.
  unfold on_sse_text.
  pose proof (last_split_no_sep 10%N (buffer w ++ t)) as Hl.
  unfold on_text, split_lf.
  destruct (for_lines sseUrl (currentEvent w) (sessionId w)
              (removelast (split 10%N (buffer w ++ t))))
    as [effs [[ev' sid']|m]].
  - intros _. destruct (existsb is_resolve effs); [|exact Hl].
    match goal with
    | |- ~ In _ (buffer (connect_resolved ?x)) =>
        destruct (connect_resolved_fields x) as (_ & _ & -> & _)
    end. exact Hl.
  - intros Hrun. exfalso. destruct Hrun as [H|H]; cbn in H; discriminate H.
Qed.

(** A run of chunks leaves the proxy where the ['data'] handler leaves it
    on the decoded texts put end to end. *)
Lemma run_chunks_text (chunks : list (list Byte.byte)) :
  forall w w',
    ~ In 10%N (buffer w) ->
    run sseUrl w (map SseData chunks) = Some w' ->
    agree w' (on_sse_text sseUrl w (flat_map Buffer_toString chunks)).
Proof.
  induction chunks as [|c chunks IH]; intros w w' Hb Hrun.
  - cbn in Hrun. inversion Hrun; subst. cbn [flat_map].
    rewrite (on_sse_text_nil w' Hb). apply agree_refl.
  - cbn [map run] in Hrun.
    destruct (step sseUrl w (SseData c)) as [w1|] eqn:E; [|discriminate Hrun].
    assert (Hw1 : w1 = on_sse_text sseUrl w (Buffer_toString c)).
    { unfold step in E. destruct (lifecycle w); try discriminate E;
        destruct (sse w); try discriminate E; inversion E; reflexivity. }
    cbn [flat_map]. destruct chunks as [|c2 chunks].
    + cbn in Hrun. inversion Hrun; subst. cbn [flat_map].
      rewrite app_nil_r. apply agree_refl.
    + assert (Hrun1 : running w1).
      { cbn [map run] in Hrun.
        destruct (step sseUrl w1 (SseData c2)) eqn:E2; [|discriminate Hrun].
        exact (step_running sseUrl w1 _ _ E2). }
      apply (agree_trans w'
               (on_sse_text sseUrl w1
                  (flat_map Buffer_toString (c2 :: chunks)))).
      * apply IH; [|exact Hrun]. rewrite Hw1. apply buffer_on_sse_text.
        rewrite <- Hw1. exact Hrun1.
      * rewrite Hw1. apply on_sse_text_app. rewrite <- Hw1. exact Hrun1.
Qed.

(** X7. Only the decoded text counts, not how it arrives.  Two sequences
    of chunks whose decoded texts, put end to end, are the same text
    leave the same trace and the same state: the proxy has written,
    logged and resolved the same things in the same order, and holds the
    same session id, pending event type and unfinished line. *)
Theorem chunking_of_the_text_is_irrelevant
    (w w1 w2 : world) (chunks1 chunks2 : list (list Byte.byte)) :
  ~ In 10%N (buffer w) ->
  flat_map Buffer_toString chunks1 = flat_map Buffer_toString chunks2 ->
  run sseUrl w (map SseData chunks1) = Some w1 ->
  run sseUrl w (map SseData chunks2) = Some w2 ->
  trace w1 = trace w2
  /\ lifecycle w1 = lifecycle w2
  /\ buffer w1 = buffer w2
  /\ (running w1 -> w1 = w2).
Proof.
  intros Hb Ht H1 H2.
  pose proof (run_chunks_text chunks1 w w1 Hb H1) as A1.
  pose proof (run_chunks_text chunks2 w w2 Hb H2) as A2.
  rewrite <- Ht in A2.
  assert (A : agree w1 w2)
    by (apply (agree_trans _ _ _ A1); apply agree_sym; exact A2).
  split; [apply A|]. split; [apply A|]. split; [apply A|].
  apply agree_running. exact A.
Qed.

End WholeStream.


Lemma chunking_of_the_text_is_irrelevant_witness :
  exists w1,
    run (R := Node.runtime) Sample.sseUrl Sample.opened
        (map SseData [Sample.bytes "event: endpoint" ++ Sample.nl;
                      Sample.bytes "data: /sse?sessionId=abc123"
                      ++ Sample.nl ++ Sample.nl])
    = Some w1
    /\ trace w1 = trace Sample.connected.
Proof.
  eexists. split; [reflexivity|].
  apply (chunking_of_the_text_is_irrelevant (R := Node.runtime) Sample.sseUrl
           Sample.opened _ Sample.connected
           [Sample.bytes "event: endpoint" ++ Sample.nl;
            Sample.bytes "data: /sse?sessionId=abc123"
            ++ Sample.nl ++ Sample.nl]
           [Sample.endpoint_chunk]).
  - simpl; tauto.
  - vm_compute; reflexivity.
  - reflexivity.
  - reflexivity.
Defined.

(** ** Sends and their outcome *)

Section Outcome.

Context {R : Runtime}.
Variable sseUrl : url.

(** The [catch] block for a line that parses: one log entry, then the
    reply. *)
Lemma catch_block_reply (line m : jsstring) (message : json) :
  JSON_parse line = Normal message ->
  catch_block line m
  = Stderr [lit "Error processing message:"; m] :: reply message m.
Proof.
  intros Hp. unfold catch_block. rewrite Hp.
  destruct message; reflexivity.
Qed.

Lemma find_pending_id (id : nat) (l : list suspended) (s : suspended) :
  find_pending id l = Some s -> s_id s = id /\ In s l.
Proof.
  induction l as [|x l IH]; [discriminate|].
  cbn [find_pending]. destruct (Nat.eqb (s_id x) id) eqn:E.
  - intros H; inversion H; subst. apply Nat.eqb_eq in E.
    split; [exact E | left; reflexivity].
  - intros H. destruct (IH H). split; [assumption | right; assumption].
Qed.

Lemma find_pending_removed (id : nat) (l : list suspended) :
  find_pending id (remove_pending id l) = None.
Proof.
  induction l as [|x l IH]; [reflexivity|].
  cbn [remove_pending filter]. destruct (Nat.eqb (s_id x) id) eqn:E.
  - exact IH.
  - cbn [negb find_pending]. rewrite E. exact IH.
Qed.

(** X8. A response settles its send, once.  For a handler waiting for the
    response to its POST, whose line parses as [message]: a status from
    200 to 299 ends it without a word, the body being dropped; any other
    status is reported as [HTTP <status>: <body>] and a transport error
    with its own message, by one log entry and the reply to [message];
    either way the handler is gone, the other handlers are as they were,
    and no second response can be delivered to it. *)
Theorem response_settles_the_send_once (w : world) (s : suspended)
    (id : nat) (message : json) :
  running w ->
  find_pending id (pending w) = Some s ->
  s_await s = AwaitingResponse ->
  JSON_parse (s_line s) = Normal message ->
  (forall statusCode data,
      exists w',
        step sseUrl w (PostEnd id statusCode data) = Some w'
        /\ trace w'
           = trace w
             ++ (if ((200 <=? statusCode) && (statusCode <? 300))%N then []
                 else Stderr [lit "Error processing message:";
                              lit "HTTP " ++ dec statusCode ++ lit ": " ++ data]
                      :: reply message
                           (lit "HTTP " ++ dec statusCode ++ lit ": " ++ data))
        /\ pending w' = remove_pending id (pending w)
        /\ sessionId w' = sessionId w
        /\ forall statusCode' data' m',
             step sseUrl w' (PostEnd id statusCode' data') = None
             /\ step sseUrl w' (PostError id m') = None)
  /\ (forall m,
        exists w',
          step sseUrl w (PostError id m) = Some w'
          /\ trace w'
             = trace w ++ Stderr [lit "Error processing message:"; m]
                          :: reply message m
          /\ pending w' = remove_pending id (pending w)).
Proof.
  intros Hrun Hfind Hawait Hparse.
  destruct (find_pending_id id (pending w) s Hfind) as [Hid _].
  split.
  - intros statusCode data.
    exists (resume w s (sendMessage_end statusCode data)).
    assert (Hstep : step sseUrl w (PostEnd id statusCode data)
                    = Some (resume w s (sendMessage_end statusCode data))).
    { unfold step. destruct Hrun as [-> | ->]; rewrite Hfind, Hawait;
        reflexivity. }
    split; [exact Hstep|]. unfold resume, sendMessage_end.
    cbn [set_trace set_pending trace pending sessionId].
    rewrite Hid. split; [|split; [reflexivity|split; [reflexivity|]]].
    + destruct ((200 <=? statusCode) && (statusCode <? 300))%N;
        [reflexivity|].
      cbn [on_line_resume]. rewrite (catch_block_reply _ _ message Hparse).
      reflexivity.
    + intros statusCode' data' m'. unfold step.
      cbn [lifecycle set_trace set_pending pending].
      destruct Hrun as [-> | ->]; rewrite find_pending_removed;
        split; reflexivity.
  - intros m. exists (resume w s (sendMessage_error m)).
    split; [|split].
    + unfold step. destruct Hrun as [-> | ->]; rewrite Hfind, Hawait;
        reflexivity.
    + unfold resume, sendMessage_error.
      cbn [set_trace set_pending trace on_line_resume].
      rewrite (catch_block_reply _ _ message Hparse). reflexivity.
    + unfold resume. cbn [set_trace set_pending pending]. rewrite Hid.
      reflexivity.
Qed.

(** The bookkeeping of the suspended handlers. *)
Lemma step_pending (w w' : world) (e : event) :
  step sseUrl w e = Some w' ->
  (pending w' = pending w /\ next_id w' = next_id w)
  \/ (exists id, pending w' = remove_pending id (pending w)
                 /\ next_id w' = next_id w)
  \/ (exists line p,
        pending w' = pending w ++ [{| s_id := next_id w; s_line := line;
                                      s_await := p |}]
        /\ next_id w' = S (next_id w)).
Proof.
  unfold step.
  destruct (lifecycle w) eqn:El; try discriminate;
    destruct e; try discriminate;
    try (destruct (sse w) eqn:Es; try discriminate);
    try (destruct (find_pending id (pending w)) as [s|]; [|discriminate];
         destruct (s_await s); try discriminate);
    intros H; injection H as <-.
  all: try (right; left; eexists; split; reflexivity).
  all: try (left; split; reflexivity).
  all: try (left; unfold on_sse_response, connect_rejected;
            destruct (statusCode =? 200)%N; cbn; rewrite ?El; cbn;
            split; reflexivity).
  all: try (left; unfold on_sse_data;
            destruct (on_data sseUrl (buffer w) (currentEvent w)
                        (sessionId w) chunk) as [b [effs [[ev' sid']|m]]];
            [destruct (existsb is_resolve effs); unfold connect_resolved; cbn;
             rewrite ?El; cbn; split; reflexivity
            | split; reflexivity]).
  all: try (left; unfold on_sse_error, connect_rejected; cbn; rewrite El; cbn;
            split; reflexivity).
  all: unfold on_stdin_line;
    destruct (on_line sseUrl (sessionId w) line) as [effs [p|]];
    [right; right; exists line, p; split; reflexivity
    | left; split; reflexivity].
Qed.

Lemma fresh_step (w w' : world) (e : event) :
  fresh w -> step sseUrl w e = Some w' -> fresh w'.
Proof.
  intros [Hlt Hnd] Hstep. unfold fresh.
  destruct (step_pending w w' e Hstep)
    as [[-> ->] | [(id & -> & ->) | (line & p & -> & ->)]].
  - split; assumption.
  - unfold remove_pending. split.
    + apply Forall_forall. intros x Hx. apply filter_In in Hx.
      rewrite Forall_forall in Hlt. apply Hlt. apply Hx.
    + clear Hlt. induction (pending w) as [|x l IH]; [constructor|].
      cbn [filter]. inversion Hnd as [|? ? Hx Hl]; subst.
      destruct (negb (Nat.eqb (s_id x) id)); [|exact (IH Hl)].
      cbn [map]. constructor; [|exact (IH Hl)].
      intros Hin. apply Hx. apply in_map_iff in Hin.
      destruct Hin as (y & Hy & Hin). apply filter_In in Hin.
      apply in_map_iff. exists y. split; [exact Hy | apply Hin].
  - split.
    + apply Forall_app. split.
      * apply (Forall_impl _ (fun a (H : s_id a < next_id w) =>
                                Nat.lt_lt_succ_r _ _ H) Hlt).
      * constructor; [cbn; lia | constructor].
    + rewrite map_app. cbn [map].
      apply NoDup_app; [exact Hnd | repeat constructor; intros [] |].
      intros x Hx [<-|[]]. apply in_map_iff in Hx.
      destruct Hx as (y & Hy & Hin). rewrite Forall_forall in Hlt.
      specialize (Hlt y Hin). cbn in Hy. lia.
Qed.

Lemma fresh_run (events : list event) :
  forall w w', fresh w -> run sseUrl w events = Some w' -> fresh w'.
Proof.
  induction events as [|e events IH]; intros w w' Hf Hrun.
  - cbn in Hrun. inversion Hrun; subst. exact Hf.
  - cbn [run] in Hrun.
    destruct (step sseUrl w e) as [w1|] eqn:E; [|discriminate Hrun].
    exact (IH w1 w' (fresh_step w w1 e Hf E) Hrun).
Qed.

Lemma find_pending_last (l : list suspended) (s : suspended) :
  Forall (fun x => s_id x < s_id s) l ->
  find_pending (s_id s) (l ++ [s]) = Some s
  /\ remove_pending (s_id s) (l ++ [s]) = l.
Proof.
  induction 1 as [|x l Hx _ [IH1 IH2]].
  - cbn. rewrite Nat.eqb_refl. split; reflexivity.
  - cbn [app find_pending remove_pending filter].
    assert (E : Nat.eqb (s_id x) (s_id s) = false)
      by (apply Nat.eqb_neq; lia).
    rewrite E. cbn [negb]. split; [exact IH1|].
    unfold remove_pending in IH2. rewrite IH2. reflexivity.
Qed.

(** X9. A request that arrives while no session id is held is answered.
    In every state the proxy can reach from its start in which the
    dispatcher is active and the session id is [null] or empty, a line
    that parses as [message] makes no request; its handler, once it goes
    on, writes one log entry and the reply to [message] with the text
    [No active session], and leaves the proxy as it was otherwise. *)
Theorem request_without_session_is_answered
    (SSE_URL clientSessionId : jsstring) (events : list event) (w : world)
    (line : jsstring) (message : json) :
  run sseUrl (initialize sseUrl SSE_URL clientSessionId) events = Some w ->
  lifecycle w = Active ->
  falsy (sessionId w) = true ->
  blank line = false ->
  JSON_parse line = Normal message ->
  exists w',
    run sseUrl w [StdinLine line; Continue (next_id w)] = Some w'
    /\ trace w'
       = trace w
         ++ Stderr [lit "Error processing message:"; lit "No active session"]
            :: reply message (lit "No active session")
    /\ pending w' = pending w
    /\ sessionId w' = sessionId w
    /\ lifecycle w' = Active.
Proof.
  intros Hrun Hactive Hsid Hblank Hparse.
  assert (Hfresh : fresh w).
  { apply (fresh_run events (initialize sseUrl SSE_URL clientSessionId) w);
      [|exact Hrun].
    split; [constructor | constructor]. }
  destruct Hfresh as [Hlt _].
  set (s := {| s_id := next_id w; s_line := line;
               s_await := AlreadyRejected (lit "No active session") |}).
  assert (Hline : on_stdin_line sseUrl w line
                  = {| sessionId := sessionId w;
                       sseConnection := sseConnection w; sse := sse w;
                       buffer := buffer w; currentEvent := currentEvent w;
                       lifecycle := lifecycle w;
                       pending := pending w ++ [s];
                       next_id := S (next_id w);
                       trace := trace w ++ [] |}).
  { unfold on_stdin_line, on_line.
    destruct (trim line) eqn:Et.
    { apply trim_nil_blank in Et. congruence. }
    rewrite Hparse. unfold sendMessage. rewrite Hsid. reflexivity. }
  destruct (find_pending_last (pending w) s Hlt) as [Hfind Hrem].
  eexists. split.
  - cbn [run]. unfold step at 1. rewrite Hactive, Hline.
    unfold step. cbn [lifecycle pending]. rewrite Hactive.
    change (next_id w) with (s_id s) at 1. rewrite Hfind.
    cbn [s_await s]. reflexivity.
  - unfold resume. cbn [set_trace set_pending trace pending sessionId
                         lifecycle s_id s_line s].
    change (next_id w) with (s_id s). rewrite Hrem.
    cbn [on_line_resume]. rewrite (catch_block_reply _ _ message Hparse).
    rewrite app_nil_r. repeat split; try exact Hactive.
Qed.

End Outcome.

Lemma response_settles_the_send_once_witness :
  exists w',
    step (R := Node.runtime) Sample.sseUrl
         (on_stdin_line (R := Node.runtime) Sample.sseUrl Sample.connected
                        Sample.ping_line)
         (PostEnd 0 404 (lit "Not Found"))
    = Some w'
    /\ stdout_lines (trace w')
       = [JSON_stringify (Runtime := Node.runtime)
            (errorResponse (JNum (num 1)) (lit "HTTP 404: Not Found")) ++ LF].
Proof.
  destruct (response_settles_the_send_once (R := Node.runtime) Sample.sseUrl
              (on_stdin_line (R := Node.runtime) Sample.sseUrl Sample.connected
                             Sample.ping_line)
              {| s_id := 0; s_line := Sample.ping_line;
                 s_await := AwaitingResponse |}
              0 Sample.ping)
    as [Hend _].
  - right; reflexivity.
  - reflexivity.
  - reflexivity.
  - vm_compute; reflexivity.
  - destruct (Hend 404%N (lit "Not Found")) as (w' & Hstep & Htrace & _).
    exists w'. split; [exact Hstep|]. rewrite Htrace. vm_compute. reflexivity.
Defined.

Lemma request_without_session_is_answered_witness :
  exists w',
    run (R := Node.runtime) Sample.sseUrl
        (on_sse_data (R := Node.runtime) Sample.sseUrl Sample.opened
                     Sample.bare_endpoint_chunk)
        [StdinLine Sample.ping_line; Continue 0]
    = Some w'
    /\ stdout_lines (trace w')
       = [JSON_stringify (Runtime := Node.runtime)
            (errorResponse (JNum (num 1)) (lit "No active session")) ++ LF].
Proof.
  destruct (request_without_session_is_answered (R := Node.runtime)
              Sample.sseUrl Sample.SSE_URL Sample.clientSessionId
              [SseResponse 200; SseData Sample.bare_endpoint_chunk]
              (on_sse_data (R := Node.runtime) Sample.sseUrl Sample.opened
                           Sample.bare_endpoint_chunk)
              Sample.ping_line Sample.ping)
    as (w' & Hrun & Htrace & _).
  - reflexivity.
  - reflexivity.
  - reflexivity.
  - reflexivity.
  - vm_compute; reflexivity.
  - exists w'. split; [exact Hrun|]. rewrite Htrace. vm_compute. reflexivity.
Defined.

(** ** Startup, failure and shutdown *)

Section Lifecycle.

Context {R : Runtime}.
Variable sseUrl : url.

(** X10. Only the status 200 opens the stream.  Whatever else the server
    answers to the GET, another 2xx status included, the connection
    promise is rejected with [Failed to connect to SSE: HTTP <status>],
    [initialize] logs the failure and the process exits with code 1;
    nothing can happen after that.  On 200 the proxy logs the connection
    and keeps waiting for the endpoint event: stdin is not read yet. *)
Theorem only_status_200_opens_the_stream
    (SSE_URL clientSessionId : jsstring) (statusCode : N) :
  (statusCode <> 200%N ->
   exists w,
     run sseUrl (initialize sseUrl SSE_URL clientSessionId)
         [SseResponse statusCode]
     = Some w
     /\ lifecycle w = Exited 1
     /\ trace w
        = trace (initialize sseUrl SSE_URL clientSessionId)
          ++ [ConnectReject
                (lit "Failed to connect to SSE: HTTP " ++ dec statusCode);
              Stderr [lit "Failed to initialize:";
                      lit "Failed to connect to SSE: HTTP " ++ dec statusCode];
              Exit 1]
     /\ forall e, step sseUrl w e = None)
  /\ (exists w,
        run sseUrl (initialize sseUrl SSE_URL clientSessionId)
            [SseResponse 200]
        = Some w
        /\ lifecycle w = Connecting
        /\ sse w = SseOpen
        /\ trace w
           = trace (initialize sseUrl SSE_URL clientSessionId)
             ++ [Stderr [lit "Connected to SSE endpoint"]]
        /\ forall line, step sseUrl w (StdinLine line) = None).
Proof.
  split.
  - intros Hne. apply N.eqb_neq in Hne.
    eexists. split; [|split; [|split]].
    + cbn [run]. unfold step. cbn [initialize lifecycle sse].
      unfold on_sse_response. rewrite Hne. reflexivity.
    + reflexivity.
    + unfold connect_rejected, exit.
      cbn [initialize lifecycle set_lifecycle set_trace trace].
      rewrite <- app_assoc. reflexivity.
    + intros e. reflexivity.
  - eexists. split; [reflexivity|]. repeat split.
Qed.

(** X11. An error of the SSE connection invalidates the session; whether
    it ends the process depends on when it comes.  While [initialize]
    still awaits the connection, the rejection makes it log the failure
    and exit with code 1.  Once the dispatcher is active the rejection
    has no effect any more: the process keeps running with the session id
    [null], the suspended handlers stay as they are, and no reconnection
    is attempted. *)
Theorem sse_error_is_fatal_only_at_startup (w : world) (m : jsstring) :
  sse w <> SseClosed ->
  (lifecycle w = Connecting ->
   exists w',
     step sseUrl w (SseError m) = Some w'
     /\ lifecycle w' = Exited 1
     /\ trace w'
        = trace w ++ [Stderr [lit "SSE connection error:"; m];
                      ConnectReject m;
                      Stderr [lit "Failed to initialize:"; m];
                      Exit 1])
  /\ (lifecycle w = Active ->
      step sseUrl w (SseError m)
      = Some {| sessionId := None; sseConnection := false;
                sse := SseClosed; buffer := buffer w;
                currentEvent := currentEvent w; lifecycle := Active;
                pending := pending w; next_id := next_id w;
                trace := trace w ++ [Stderr [lit "SSE connection error:"; m];
                                     ConnectReject m] |}).
Proof.
  intros Hsse. split; intros Hl.
  - eexists. split; [|split].
    + unfold step. rewrite Hl. destruct (sse w); try reflexivity.
      contradiction.
    + unfold on_sse_error, connect_rejected. cbn. rewrite Hl. reflexivity.
    + unfold on_sse_error, connect_rejected. cbn. rewrite Hl. cbn.
      rewrite <- !app_assoc. reflexivity.
  - unfold step. rewrite Hl.
    assert (Hw : on_sse_error w m
                 = {| sessionId := None; sseConnection := false;
                      sse := SseClosed; buffer := buffer w;
                      currentEvent := currentEvent w; lifecycle := Active;
                      pending := pending w; next_id := next_id w;
                      trace := trace w
                               ++ [Stderr [lit "SSE connection error:"; m];
                                   ConnectReject m] |}).
    { unfold on_sse_error, connect_rejected. cbn. rewrite Hl.
      unfold set_trace. cbn. rewrite Hl, <- app_assoc. reflexivity. }
    rewrite Hw. destruct (sse w); try reflexivity. contradiction.
Qed.




End Lifecycle.

(** The unfinished line kept between chunks. *)
Section Buffer.

Context {R : Runtime}.
Variable sseUrl : url.

Lemma buffer_step (w w' : world) (e : event) :
  step sseUrl w e = Some w' ->
  ~ In 10%N (buffer w) -> ~ In 10%N (buffer w').
Proof.
  intros Hstep Hb. destruct (is_sse_event e) eqn:He.
  - unfold step in Hstep.
    destruct (lifecycle w) eqn:El; try discriminate Hstep;
      destruct e; try discriminate He;
      destruct (sse w) eqn:Es; try discriminate Hstep;
      injection Hstep as <-.
    all: try exact Hb.
    all: try (unfold on_sse_response, connect_rejected;
              destruct (statusCode =? 200)%N; cbn; rewrite ?El; cbn;
              first [exact Hb | tauto]).
    all: try (unfold on_sse_error, connect_rejected; cbn; rewrite El; cbn;
              exact Hb).
    all: unfold on_sse_data, on_data, on_text;
      pose proof (last_split_no_sep 10%N
                    (buffer w ++ Buffer_toString chunk)) as Hl;
      unfold split_lf;
      destruct (for_lines sseUrl (currentEvent w) (sessionId w)
                  (removelast (split 10%N (buffer w ++ Buffer_toString chunk))))
        as [effs [[ev' sid']|m]]; [|exact Hl];
      destruct (existsb is_resolve effs); [|exact Hl];
      unfold connect_resolved; cbn; rewrite El; exact Hl.
  - destruct (step_local sseUrl w w' e He Hstep) as (_ & _ & -> & _).
    exact Hb.
Qed.

(** X13. The buffer never holds a line feed.  In every run from the start
    of the proxy the text kept between chunks is an unfinished line: each
    chunk's complete lines are consumed by the handler that receives it,
    none is left for a later chunk. *)
Theorem buffer_never_holds_a_line_feed
    (SSE_URL clientSessionId : jsstring) (events : list event) (w : world) :
  run sseUrl (initialize sseUrl SSE_URL clientSessionId) events = Some w ->
  ~ In 10%N (buffer w).
Proof.
  assert (H : forall evs w0 w1,
             ~ In 10%N (buffer w0) -> run sseUrl w0 evs = Some w1 ->
             ~ In 10%N (buffer w1)).
  { induction evs as [|e evs IH]; intros w0 w1 Hb Hrun.
    - cbn in Hrun. inversion Hrun; subst. exact Hb.
    - cbn [run] in Hrun.
      destruct (step sseUrl w0 e) as [w2|] eqn:E; [|discriminate Hrun].
      exact (IH w2 w1 (buffer_step w0 w2 e E Hb) Hrun). }
  intros Hrun.
  apply (H events (initialize sseUrl SSE_URL clientSessionId) w);
    [|exact Hrun].
  cbn. tauto.
Qed.

End Buffer.

Lemma only_status_200_opens_the_stream_witness :
  204%N <> 200%N
  /\ exists w,
       run (R := Node.runtime) Sample.sseUrl Sample.started [SseResponse 204]
       = Some w
       /\ lifecycle w = Exited 1.
Proof.
  split; [discriminate|].
  destruct (proj1 (only_status_200_opens_the_stream (R := Node.runtime)
                     Sample.sseUrl Sample.SSE_URL Sample.clientSessionId 204))
    as (w & Hrun & Hl & _).
  - discriminate.
  - exists w. split; [exact Hrun | exact Hl].
Defined.

Lemma sse_error_is_fatal_only_at_startup_witness :
  exists w',
    step (R := Node.runtime) Sample.sseUrl Sample.connected
         (SseError (lit "socket hang up"))
    = Some w'
    /\ lifecycle w' = Active /\ sessionId w' = None.
Proof.
  eexists. split.
  - apply (proj2 (sse_error_is_fatal_only_at_startup (R := Node.runtime)
                    Sample.sseUrl Sample.connected (lit "socket hang up")
                    ltac:(discriminate))).
    reflexivity.
  - split; reflexivity.
Defined.


Lemma buffer_never_holds_a_line_feed_witness :
  ~ In 10%N (buffer Sample.connected).
Proof.
  apply (buffer_never_holds_a_line_feed (R := Node.runtime) Sample.sseUrl
           Sample.SSE_URL Sample.clientSessionId
           [SseResponse 200; SseData Sample.endpoint_chunk]).
  reflexivity.
Defined.
